(** * Base64URL codec and Buffer shim of the x402-payment edge function

    A shallow embedding of [base64url/mod.ts] and [base64url/buffer-polyfill.ts].

    - A [Uint8Array] is a [list byte].
    - A JavaScript string is the list of its UTF-16 code units, each held in
      an [N] below [2^16].
    - A call that can throw returns a [result]; the codec threads it with
      the bind notation below.
    - The host functions the codec calls ([btoa], [atob], [TextEncoder],
      [TextDecoder]) are written out after their standards (WHATWG HTML,
      WHATWG Encoding, RFC 4648); [JSON] and the original [Buffer.from]
      are type classes, with an instance of each to run examples on. *)

From Stdlib.Strings Require Import Ascii String Byte.
From Stdlib Require Import List NArith Arith Lia Bool.
Import ListNotations.

Set Warnings "-abstract-large-number,-register-all".

(** ** Outcomes of a call *)

Inductive js_error : Type :=
| InvalidCharacterError
| TypeError
| SyntaxError.

Inductive result (A : Type) : Type :=
| Ok (a : A)
| Throw (e : js_error)
| NoFuel.

Arguments Ok {A} a.
Arguments Throw {A} e.
Arguments NoFuel {A}.

Definition bind {A B : Type} (r : result A) (k : A -> result B) : result B :=
  match r with
  | Ok a => k a
  | Throw e => Throw e
  | NoFuel => NoFuel
  end.

Declare Scope js_scope.
Delimit Scope js_scope with js.
Notation "x <- r ;; k" := (bind r (fun x => k))
  (at level 61, r at next level, right associativity) : js_scope.
Local Open Scope js_scope.

(** ** JavaScript strings and byte arrays *)

Definition code_unit : Type := N.
Definition jsstring : Type := list code_unit.
Definition Uint8Array : Type := list byte.

(** A string literal of the source, as its code units. *)
Definition lit (s : string) : jsstring :=
  map (fun a => N_of_ascii a) (list_ascii_of_string s).

Definition chr (s : string) : code_unit :=
  match lit s with
  | c :: _ => c
  | [] => 0%N
  end.

(** [String.fromCharCode(b)] for an element [b] of a [Uint8Array]. *)
Definition fromCharCode (b : byte) : code_unit := Byte.to_N b.

(** Storing a number into a [Uint8Array] slot keeps its low eight bits. *)
Definition ToUint8 (c : N) : byte :=
  match Byte.of_N (N.land c 255) with
  | Some b => b
  | None => x00
  end.

(** [s.replace(/a/g, b)] for one-character [a] and [b]. *)
Definition replace_all (a b : code_unit) (s : jsstring) : jsstring :=
  map (fun c => if N.eqb c a then b else c) s.

(** [s.replace(/a/g, e)] for the empty string [e]. *)
Definition remove_all (a : code_unit) (s : jsstring) : jsstring :=
  filter (fun c => negb (N.eqb c a)) s.

(** [arr.slice(lo, hi)] for [0 <= lo <= hi]. *)
Definition slice {A : Type} (l : list A) (lo hi : nat) : list A :=
  firstn (hi - lo) (skipn lo l).

(** ** Host Base64: [btoa] and [atob] *)

Module Host.

Definition alphabet : jsstring :=
  lit "ABCDEFGHIJKLMNOPQRSTUVWXYZabcdefghijklmnopqrstuvwxyz0123456789+/".

Definition pad : code_unit := chr "=".

(** The character that stands for the six-bit value [i]. *)
Definition b64_char (i : N) : code_unit := nth (N.to_nat i) alphabet 0%N.

Fixpoint index_of (c : code_unit) (l : jsstring) : option N :=
  match l with
  | [] => None
  | x :: l' => if N.eqb c x then Some 0%N else option_map N.succ (index_of c l')
  end.

(** The six-bit value a character stands for, if it is in the alphabet. *)
Definition b64_index (c : code_unit) : option N := index_of c alphabet.

Definition is_b64_char (c : code_unit) : bool :=
  match b64_index c with
  | Some _ => true
  | None => false
  end.

(** Forgiving-base64 encode of a byte sequence given as numbers below 256:
    three bytes make four characters, a final group of one or two bytes is
    filled with zero bits and padded with [=]. *)
Fixpoint encode_groups (bs : list N) : jsstring :=
  match bs with
  | [] => []
  | [b0] =>
      let n := N.shiftl b0 4 in
      [b64_char (N.land (N.shiftr n 6) 63); b64_char (N.land n 63); pad; pad]
  | [b0; b1] =>
      let n := N.shiftl (N.lor (N.shiftl b0 8) b1) 2 in
      [b64_char (N.land (N.shiftr n 12) 63); b64_char (N.land (N.shiftr n 6) 63);
       b64_char (N.land n 63); pad]
  | b0 :: b1 :: b2 :: rest =>
      let n := N.lor (N.lor (N.shiftl b0 16) (N.shiftl b1 8)) b2 in
      b64_char (N.land (N.shiftr n 18) 63) :: b64_char (N.land (N.shiftr n 12) 63)
        :: b64_char (N.land (N.shiftr n 6) 63) :: b64_char (N.land n 63)
        :: encode_groups rest
  end.

(** [btoa(data)]: throws when a character is above U+00FF. *)
Definition btoa (data : jsstring) : result jsstring :=
  if forallb (fun c => N.leb c 255) data
  then Ok (encode_groups data)
  else Throw InvalidCharacterError.

Definition is_ascii_whitespace (c : code_unit) : bool :=
  N.eqb c 9 || N.eqb c 10 || N.eqb c 12 || N.eqb c 13 || N.eqb c 32.

(** Step 2 of forgiving-base64 decode: when the length is a multiple of
    four, one or two trailing [=] are removed. *)
Definition strip_padding (data : jsstring) : jsstring :=
  if Nat.eqb (length data mod 4) 0 then
    match rev data with
    | p1 :: p2 :: r =>
        if N.eqb p1 pad then
          if N.eqb p2 pad then rev r else rev (p2 :: r)
        else data
    | [p1] => if N.eqb p1 pad then [] else data
    | [] => data
    end
  else data.

(** The bit buffer of forgiving-base64 decode, four six-bit values at a
    time; a final group of two or three values drops its last four or two
    bits. *)
Fixpoint decode_groups (sx : list N) : list N :=
  match sx with
  | [] => []
  | [_] => []
  | [s0; s1] =>
      let n := N.lor (N.shiftl s0 6) s1 in
      [N.land (N.shiftr n 4) 255]
  | [s0; s1; s2] =>
      let n := N.shiftr (N.lor (N.lor (N.shiftl s0 12) (N.shiftl s1 6)) s2) 2 in
      [N.land (N.shiftr n 8) 255; N.land n 255]
  | s0 :: s1 :: s2 :: s3 :: rest =>
      let n := N.lor (N.lor (N.lor (N.shiftl s0 18) (N.shiftl s1 12)) (N.shiftl s2 6)) s3 in
      N.land (N.shiftr n 16) 255 :: N.land (N.shiftr n 8) 255 :: N.land n 255
        :: decode_groups rest
  end.

Definition sextet (c : code_unit) : N :=
  match b64_index c with
  | Some i => i
  | None => 0%N
  end.

(** Forgiving-base64 decode; [None] is the standard's failure. *)
Definition forgiving_base64_decode (data : jsstring) : option (list N) :=
  let data := filter (fun c => negb (is_ascii_whitespace c)) data in
  let data := strip_padding data in
  if Nat.eqb (length data mod 4) 1 then None
  else if forallb is_b64_char data then Some (decode_groups (map sextet data))
  else None.

(** [atob(data)]: the decoded bytes as a string of characters below 256. *)
Definition atob (data : jsstring) : result jsstring :=
  match forgiving_base64_decode data with
  | Some bytes => Ok bytes
  | None => Throw InvalidCharacterError
  end.

End Host.

(** ** Host text codecs: [TextEncoder] and [TextDecoder] *)

Module Text.

Definition is_lead_surrogate (c : code_unit) : bool := N.leb 0xD800 c && N.leb c 0xDBFF.
Definition is_trail_surrogate (c : code_unit) : bool := N.leb 0xDC00 c && N.leb c 0xDFFF.

(** A string as scalar values: a surrogate pair is one code point, a lone
    surrogate becomes U+FFFD. *)
Fixpoint to_scalars (s : jsstring) : list N :=
  match s with
  | [] => []
  | c :: rest =>
      if is_lead_surrogate c then
        match rest with
        | d :: rest' =>
            if is_trail_surrogate d
            then (0x10000 + N.shiftl (c - 0xD800) 10 + (d - 0xDC00))%N :: to_scalars rest'
            else 0xFFFD%N :: to_scalars rest
        | [] => [0xFFFD%N]
        end
      else if is_trail_surrogate c then 0xFFFD%N :: to_scalars rest
      else c :: to_scalars rest
  end.

(** The UTF-8 encoder's handler for one code point. *)
Definition utf8_encode_cp (cp : N) : list N :=
  if N.leb cp 0x7F then [cp]
  else if N.leb cp 0x7FF then
    [(N.shiftr cp 6 + 0xC0)%N; N.lor 0x80 (N.land cp 0x3F)]
  else if N.leb cp 0xFFFF then
    [(N.shiftr cp 12 + 0xE0)%N; N.lor 0x80 (N.land (N.shiftr cp 6) 0x3F);
     N.lor 0x80 (N.land cp 0x3F)]
  else
    [(N.shiftr cp 18 + 0xF0)%N; N.lor 0x80 (N.land (N.shiftr cp 12) 0x3F);
     N.lor 0x80 (N.land (N.shiftr cp 6) 0x3F); N.lor 0x80 (N.land cp 0x3F)].

(** [new TextEncoder().encode(input)]. *)
Definition TextEncoder_encode (input : jsstring) : Uint8Array :=
  map ToUint8 (flat_map utf8_encode_cp (to_scalars input)).

(** The variables of the UTF-8 decoder. *)
Record utf8_state : Type := mk_utf8_state {
  code_point : N;
  bytes_seen : N;
  bytes_needed : N;
  lower_boundary : N;
  upper_boundary : N
}.

Definition utf8_init : utf8_state := mk_utf8_state 0 0 0 0x80 0xBF.

Definition in_range (lo hi b : N) : bool := N.leb lo b && N.leb b hi.

(** The handler on a byte when no continuation byte is awaited; the code
    points it emits, U+FFFD for an error. *)
Definition utf8_lead (b : N) : utf8_state * list N :=
  if in_range 0x00 0x7F b then (utf8_init, [b])
  else if in_range 0xC2 0xDF b then
    (mk_utf8_state (N.land b 0x1F) 0 1 0x80 0xBF, [])
  else if in_range 0xE0 0xEF b then
    (mk_utf8_state (N.land b 0xF) 0 2
       (if N.eqb b 0xE0 then 0xA0 else 0x80) (if N.eqb b 0xED then 0x9F else 0xBF), [])
  else if in_range 0xF0 0xF4 b then
    (mk_utf8_state (N.land b 0x7) 0 3
       (if N.eqb b 0xF0 then 0x90 else 0x80) (if N.eqb b 0xF4 then 0x8F else 0xBF), [])
  else (utf8_init, [0xFFFD%N]).

(** The handler on a byte in any state. A byte outside the awaited range is
    an error and is handled again from the initial state. *)
Definition utf8_handler (st : utf8_state) (b : N) : utf8_state * list N :=
  if N.eqb (bytes_needed st) 0 then utf8_lead b
  else if negb (in_range (lower_boundary st) (upper_boundary st) b) then
    let (st', out) := utf8_lead b in (st', 0xFFFD%N :: out)
  else
    let cp := N.lor (N.shiftl (code_point st) 6) (N.land b 0x3F) in
    let seen := (bytes_seen st + 1)%N in
    if negb (N.eqb seen (bytes_needed st))
    then (mk_utf8_state cp seen (bytes_needed st) 0x80 0xBF, [])
    else (utf8_init, [cp]).

Fixpoint utf8_run (st : utf8_state) (bytes : list N) : list N :=
  match bytes with
  | [] => if N.eqb (bytes_needed st) 0 then [] else [0xFFFD%N]
  | b :: rest => let (st', out) := utf8_handler st b in out ++ utf8_run st' rest
  end.

Definition utf8_decode (bytes : Uint8Array) : list N :=
  utf8_run utf8_init (map Byte.to_N bytes).

(** A leading U+FEFF is dropped (the decoder is made with [ignoreBOM] false). *)
Definition strip_bom (cps : list N) : list N :=
  match cps with
  | c :: rest => if N.eqb c 0xFEFF then rest else cps
  | [] => []
  end.

(** The code units of a code point. *)
Definition utf16_units (cp : N) : jsstring :=
  if N.leb cp 0xFFFF then [cp]
  else
    let v := (cp - 0x10000)%N in
    [(0xD800 + N.shiftr v 10)%N; (0xDC00 + N.land v 0x3FF)%N].

(** [new TextDecoder().decode(bytes)]: UTF-8, replacement on errors. *)
Definition TextDecoder_decode (bytes : Uint8Array) : jsstring :=
  flat_map utf16_units (strip_bom (utf8_decode bytes)).

End Text.

(** ** Host JSON *)

(** [JSON.stringify] returns [None] for a value with no JSON text
    ([undefined], a function); both functions may throw. *)
Class JSONHost (value : Type) : Type := {
  JSON_stringify : value -> result (option jsstring);
  JSON_parse : jsstring -> result value
}.

(** ** [mod.ts] *)

Definition chunkSize : nat := 8192.

(** The argument of [encode]: [string | Uint8Array]; [Undefined] is what
    [encodeJSON] passes on when [JSON.stringify] gives no text. *)
Inductive encode_input : Type :=
| Str (s : jsstring)
| Bytes (b : Uint8Array)
| Undefined.

(** The inner loop of [encode]:
    [for (j = 0; j < chunk.length; j++) binaryString += String.fromCharCode(chunk[j])]. *)
Definition append_chunk (binaryString : jsstring) (chunk : Uint8Array) : jsstring :=
  fold_left (fun acc b => acc ++ [fromCharCode b]) chunk binaryString.

(** The outer loop of [encode], from index [i] on, for a chunk size [cs]:
    [for (; i < bytes.length; i += cs) { chunk = bytes.slice(i, i + cs); ... }]. *)
Fixpoint chunk_loop (fuel : nat) (cs : nat) (bytes : Uint8Array) (i : nat)
    (binaryString : jsstring) : result jsstring :=
  if Nat.ltb i (length bytes) then
    match fuel with
    | O => NoFuel
    | S fuel' =>
        let chunk := slice bytes i (i + cs) in
        chunk_loop fuel' cs bytes (i + cs) (append_chunk binaryString chunk)
    end
  else Ok binaryString.

Definition to_base64url (base64 : jsstring) : jsstring :=
  remove_all (chr "=") (replace_all (chr "/") (chr "_") (replace_all (chr "+") (chr "-") base64)).

(** [encode] with its loop run for chunks of [cs] bytes. *)
Definition encode_with (cs : nat) (input : encode_input) : result jsstring :=
  bytes <- match input with
           | Str s => Ok (Text.TextEncoder_encode s)
           | Bytes b => Ok b
           | Undefined => Throw TypeError
           end ;;
  binaryString <- chunk_loop (S (length bytes)) cs bytes 0 [] ;;
  base64 <- Host.btoa binaryString ;;
  Ok (to_base64url base64).

Definition encode (input : encode_input) : result jsstring :=
  encode_with chunkSize input.

Definition decode (input : jsstring) : result Uint8Array :=
  let base64 := replace_all (chr "_") (chr "/") (replace_all (chr "-") (chr "+") input) in
  let paddingLength := (4 - (length base64 mod 4)) mod 4 in
  let base64 := base64 ++ repeat (chr "=") paddingLength in
  binaryString <- Host.atob base64 ;;
  Ok (map ToUint8 binaryString).

Definition decodeToString (input : jsstring) : result jsstring :=
  bytes <- decode input ;;
  Ok (Text.TextDecoder_decode bytes).

Definition encodeJSON {value : Type} `{JSONHost value} (obj : value) : result jsstring :=
  text <- JSON_stringify obj ;;
  encode (match text with Some s => Str s | None => Undefined end).

Definition decodeJSON {value : Type} `{JSONHost value} (input : jsstring) : result value :=
  text <- decodeToString input ;;
  JSON_parse text.

(** The bytes of an ASCII literal. *)
Definition bytes_of_ascii (s : string) : Uint8Array := list_byte_of_string s.

(** ** Notions the statements use *)

(** The URL-safe alphabet, in the order of the six-bit values. *)
Definition url_alphabet : jsstring :=
  lit "ABCDEFGHIJKLMNOPQRSTUVWXYZabcdefghijklmnopqrstuvwxyz0123456789-_".

Definition url_char (i : N) : code_unit := nth (N.to_nat i) url_alphabet 0%N.

Definition is_url_char (c : code_unit) : bool :=
  match Host.index_of c url_alphabet with
  | Some _ => true
  | None => false
  end.

Definition url_safe (s : jsstring) : Prop := forallb is_url_char s = true.

(** [encode] as the specification words it: the whole byte sequence is
    turned into the binary string as a single block. *)
Definition encode_unchunked (input : encode_input) : result jsstring :=
  bytes <- match input with
           | Str s => Ok (Text.TextEncoder_encode s)
           | Bytes b => Ok b
           | Undefined => Throw TypeError
           end ;;
  base64 <- Host.btoa (append_chunk [] bytes) ;;
  Ok (to_base64url base64).

(** The six-bit values of a byte sequence: the groups of [Host.encode_groups]
    before they are turned into characters and padded. *)
Fixpoint sextets_of_bytes (bs : list N) : list N :=
  match bs with
  | [] => []
  | [b0] =>
      let n := N.shiftl b0 4 in
      [N.land (N.shiftr n 6) 63; N.land n 63]
  | [b0; b1] =>
      let n := N.shiftl (N.lor (N.shiftl b0 8) b1) 2 in
      [N.land (N.shiftr n 12) 63; N.land (N.shiftr n 6) 63; N.land n 63]
  | b0 :: b1 :: b2 :: rest =>
      let n := N.lor (N.lor (N.shiftl b0 16) (N.shiftl b1 8)) b2 in
      N.land (N.shiftr n 18) 63 :: N.land (N.shiftr n 12) 63
        :: N.land (N.shiftr n 6) 63 :: N.land n 63 :: sextets_of_bytes rest
  end.

(** How many [=] the standard encoding of [n] bytes ends with. *)
Definition stripped (n : nat) : nat :=
  match n mod 3 with
  | 0 => 0
  | 1 => 2
  | _ => 1
  end.

(** Enumeration of the numbers below a bound, to settle finite case
    distinctions by evaluation. *)
Definition below (k : nat) : list N := map N.of_nat (seq 0 k).

(** What the two alphabet substitutions of [encode], and of [decode], do
    to one character. *)
Definition to_url_char (c : code_unit) : code_unit :=
  let c := if N.eqb c (chr "+") then chr "-" else c in
  if N.eqb c (chr "/") then chr "_" else c.

Definition from_url_char (c : code_unit) : code_unit :=
  let c := if N.eqb c (chr "-") then chr "+" else c in
  if N.eqb c (chr "_") then chr "/" else c.

(** Everything the proofs need to know about the character of one six-bit
    value, as a single test. *)
Definition char_table_ok (i : N) : bool :=
  match Host.b64_index (Host.b64_char i) with
  | Some j => N.eqb j i
  | None => false
  end
  && negb (Host.is_ascii_whitespace (Host.b64_char i))
  && negb (N.eqb (Host.b64_char i) Host.pad)
  && N.eqb (to_url_char (Host.b64_char i)) (url_char i)
  && N.eqb (from_url_char (url_char i)) (Host.b64_char i)
  && negb (N.eqb (url_char i) (chr "="))
  && is_url_char (url_char i)
  && (is_url_char (Host.b64_char i)
      || N.eqb (Host.b64_char i) (chr "+") || N.eqb (Host.b64_char i) (chr "/"))
  && match Host.index_of (url_char i) url_alphabet with
     | Some j => N.eqb j i
     | None => false
     end.

(** The same, fact by fact. *)
Record char_facts (i : N) : Prop := {
  cf_index : Host.b64_index (Host.b64_char i) = Some i;
  cf_space : Host.is_ascii_whitespace (Host.b64_char i) = false;
  cf_pad : N.eqb (Host.b64_char i) Host.pad = false;
  cf_to_url : to_url_char (Host.b64_char i) = url_char i;
  cf_from_url : from_url_char (url_char i) = Host.b64_char i;
  cf_url_pad : N.eqb (url_char i) (chr "=") = false;
  cf_url : is_url_char (url_char i) = true;
  cf_std : is_url_char (Host.b64_char i) = true \/ Host.b64_char i = chr "+"
           \/ Host.b64_char i = chr "/";
  cf_url_index : Host.index_of (url_char i) url_alphabet = Some i
}.

(** A string with no character outside the URL-safe alphabet; in particular
    none of [+], [/] and [=]. *)
Definition alphabet_pure (s : jsstring) : Prop :=
  forall c, In c s ->
    is_url_char c = true /\ c <> chr "+" /\ c <> chr "/" /\ c <> chr "=".

(** Standard Base64 text with its padding: a multiple of four characters,
    all of the standard alphabet but for at most two [=] at the end. *)
Definition padded_base64 (s : jsstring) : Prop :=
  exists body p,
    s = body ++ repeat (chr "=") p /\ (p <= 2)%nat
    /\ forallb Host.is_b64_char body = true /\ (length s mod 4 = 0)%nat.

(** A character of the URL-safe or of the standard alphabet. *)
Definition is_url_or_std_char (c : code_unit) : bool :=
  is_url_char c || N.eqb c (chr "+") || N.eqb c (chr "/").

(** A character that neither alphabet has and that [atob] does not skip:
    not [=], not ASCII whitespace. *)
Definition is_foreign_char (c : code_unit) : bool :=
  negb (is_url_or_std_char c) && negb (N.eqb c (chr "="))
  && negb (Host.is_ascii_whitespace c).

(** A Unicode scalar value: a code point that is not a surrogate. *)
Definition is_scalar (cp : N) : bool :=
  N.ltb cp 0xD800 || (N.leb 0xE000 cp && N.leb cp 0x10FFFF).

(** A well-formed string: every code unit is below [2^16] and every
    surrogate is half of a pair. *)
Fixpoint well_formed (s : jsstring) : bool :=
  match s with
  | [] => true
  | c :: rest =>
      if Text.is_lead_surrogate c then
        match rest with
        | d :: rest' => Text.is_trail_surrogate d && well_formed rest'
        | [] => false
        end
      else negb (Text.is_trail_surrogate c) && N.leb c 0xFFFF && well_formed rest
  end.

(** The string does not begin with U+FEFF, the byte order mark. *)
Definition no_bom (s : jsstring) : bool :=
  match s with
  | c :: _ => negb (N.eqb c 0xFEFF)
  | [] => true
  end.

(** A list of scalar values. *)
Definition scalars (cps : list N) : Prop := Forall (fun cp => is_scalar cp = true) cps.

(** ** A small JSON host

    An instance of [JSONHost] to run the codec on: JSON values without
    numbers, serialised as [JSON.stringify] does without an indent, and a
    parser of JSON text. Members of an object are kept as a list, in their
    order. *)

Module MiniJSON.

Inductive json : Type :=
| JNull
| JBool (b : bool)
| JString (s : jsstring)
| JArray (elements : list json)
| JObject (members : list (jsstring * json)).

Definition dquote : code_unit := 34%N.
Definition backslash : code_unit := 92%N.

(** A literal in which ['] stands for the double quote. *)
Definition qlit (s : string) : jsstring :=
  map (fun c => if N.eqb c (chr "'") then dquote else c) (lit s).

Definition hex_digit (d : N) : code_unit :=
  if N.ltb d 10 then (chr "0" + d)%N else (chr "a" + (d - 10))%N.

(** [\uXXXX] for a code unit. *)
Definition unicode_escape (c : code_unit) : jsstring :=
  [backslash; chr "u"] ++ [hex_digit (N.land (N.shiftr c 12) 15); hex_digit (N.land (N.shiftr c 8) 15);
               hex_digit (N.land (N.shiftr c 4) 15); hex_digit (N.land c 15)].

(** The characters of a quoted string: quotes, backslashes, control
    characters and lone surrogates are escaped, as by [QuoteJSONString]. *)
Fixpoint quote_chars (s : jsstring) : jsstring :=
  match s with
  | [] => []
  | c :: rest =>
      if N.eqb c dquote then [backslash; dquote] ++ quote_chars rest
      else if N.eqb c backslash then [backslash; backslash] ++ quote_chars rest
      else if N.eqb c 8 then [backslash; chr "b"] ++ quote_chars rest
      else if N.eqb c 9 then [backslash; chr "t"] ++ quote_chars rest
      else if N.eqb c 10 then [backslash; chr "n"] ++ quote_chars rest
      else if N.eqb c 12 then [backslash; chr "f"] ++ quote_chars rest
      else if N.eqb c 13 then [backslash; chr "r"] ++ quote_chars rest
      else if N.ltb c 0x20 then unicode_escape c ++ quote_chars rest
      else if Text.is_lead_surrogate c then
        match rest with
        | d :: rest' =>
            if Text.is_trail_surrogate d then c :: d :: quote_chars rest'
            else unicode_escape c ++ quote_chars rest
        | [] => unicode_escape c
        end
      else if Text.is_trail_surrogate c then unicode_escape c ++ quote_chars rest
      else c :: quote_chars rest
  end.

Definition quote (s : jsstring) : jsstring :=
  dquote :: quote_chars s ++ [dquote].

Fixpoint join (sep : jsstring) (parts : list jsstring) : jsstring :=
  match parts with
  | [] => []
  | [p] => p
  | p :: rest => p ++ sep ++ join sep rest
  end.

Fixpoint serialize (v : json) : jsstring :=
  match v with
  | JNull => lit "null"
  | JBool true => lit "true"
  | JBool false => lit "false"
  | JString s => quote s
  | JArray elements => lit "[" ++ join (lit ",") (map serialize elements) ++ lit "]"
  | JObject members =>
      lit "{"
      ++ join (lit ",") (map (fun m => quote (fst m) ++ lit ":" ++ serialize (snd m)) members)
      ++ lit "}"
  end.

Definition is_json_space (c : code_unit) : bool :=
  N.eqb c 9 || N.eqb c 10 || N.eqb c 13 || N.eqb c 32.

Fixpoint skip_space (s : jsstring) : jsstring :=
  match s with
  | c :: rest => if is_json_space c then skip_space rest else s
  | [] => []
  end.

Definition hex_value (c : code_unit) : option N :=
  if N.leb (chr "0") c && N.leb c (chr "9") then Some (c - chr "0")%N
  else if N.leb (chr "a") c && N.leb c (chr "f") then Some (c - chr "a" + 10)%N
  else if N.leb (chr "A") c && N.leb c (chr "F") then Some (c - chr "A" + 10)%N
  else None.

Definition simple_escape (c : code_unit) : option code_unit :=
  if N.eqb c dquote then Some dquote
  else if N.eqb c backslash then Some backslash
  else if N.eqb c (chr "/") then Some (chr "/")
  else if N.eqb c (chr "b") then Some 8%N
  else if N.eqb c (chr "f") then Some 12%N
  else if N.eqb c (chr "n") then Some 10%N
  else if N.eqb c (chr "r") then Some 13%N
  else if N.eqb c (chr "t") then Some 9%N
  else None.

(** The characters of a string up to its closing quote, and what follows. *)
Fixpoint parse_chars (s : jsstring) : option (jsstring * jsstring) :=
  match s with
  | [] => None
  | c :: rest =>
      if N.eqb c dquote then Some ([], rest)
      else if N.ltb c 0x20 then None
      else if N.eqb c backslash then
        match rest with
        | e :: rest1 =>
            if N.eqb e (chr "u") then
              match rest1 with
              | h3 :: h2 :: h1 :: h0 :: rest2 =>
                  match hex_value h3, hex_value h2, hex_value h1, hex_value h0 with
                  | Some v3, Some v2, Some v1, Some v0 =>
                      match parse_chars rest2 with
                      | Some (str, after) =>
                          Some ((v3 * 4096 + v2 * 256 + v1 * 16 + v0)%N :: str, after)
                      | None => None
                      end
                  | _, _, _, _ => None
                  end
              | _ => None
              end
            else
              match simple_escape e, parse_chars rest1 with
              | Some x, Some (str, after) => Some (x :: str, after)
              | _, _ => None
              end
        | [] => None
        end
      else
        match parse_chars rest with
        | Some (str, after) => Some (c :: str, after)
        | None => None
        end
  end.

(** [expect word rest v]: [rest] goes on with [word]. *)
Fixpoint expect (word rest : jsstring) (v : json) : option (json * jsstring) :=
  match word, rest with
  | [], _ => Some (v, rest)
  | w :: word', c :: rest' => if N.eqb w c then expect word' rest' v else None
  | _ :: _, [] => None
  end.

(** A value, the elements of an array after its first, and the members of
    an object after its first; [fuel] bounds the depth and the length. *)
Fixpoint parse_value (fuel : nat) (s : jsstring) : option (json * jsstring) :=
  match fuel with
  | O => None
  | S fuel' =>
      match skip_space s with
      | [] => None
      | c :: rest =>
          if N.eqb c (chr "n") then expect (lit "ull") rest JNull
          else if N.eqb c (chr "t") then expect (lit "rue") rest (JBool true)
          else if N.eqb c (chr "f") then expect (lit "alse") rest (JBool false)
          else if N.eqb c dquote then
            match parse_chars rest with
            | Some (str, after) => Some (JString str, after)
            | None => None
            end
          else if N.eqb c (chr "[") then
            match skip_space rest with
            | c1 :: rest1 =>
                if N.eqb c1 (chr "]") then Some (JArray [], rest1)
                else
                  match parse_value fuel' rest with
                  | Some (v, after) =>
                      match parse_elements fuel' after with
                      | Some (vs, after') => Some (JArray (v :: vs), after')
                      | None => None
                      end
                  | None => None
                  end
            | [] => None
            end
          else if N.eqb c (chr "{") then
            match skip_space rest with
            | c1 :: rest1 =>
                if N.eqb c1 (chr "}") then Some (JObject [], rest1)
                else
                  match parse_member fuel' rest with
                  | Some (m, after) =>
                      match parse_members fuel' after with
                      | Some (ms, after') => Some (JObject (m :: ms), after')
                      | None => None
                      end
                  | None => None
                  end
            | [] => None
            end
          else None
      end
  end
with parse_elements (fuel : nat) (s : jsstring) : option (list json * jsstring) :=
  match fuel with
  | O => None
  | S fuel' =>
      match skip_space s with
      | c :: rest =>
          if N.eqb c (chr "]") then Some ([], rest)
          else if N.eqb c (chr ",") then
            match parse_value fuel' rest with
            | Some (v, after) =>
                match parse_elements fuel' after with
                | Some (vs, after') => Some (v :: vs, after')
                | None => None
                end
            | None => None
            end
          else None
      | [] => None
      end
  end
with parse_member (fuel : nat) (s : jsstring) : option ((jsstring * json) * jsstring) :=
  match fuel with
  | O => None
  | S fuel' =>
      match skip_space s with
      | c :: rest =>
          if N.eqb c dquote then
            match parse_chars rest with
            | Some (key, after) =>
                match skip_space after with
                | c1 :: rest1 =>
                    if N.eqb c1 (chr ":") then
                      match parse_value fuel' rest1 with
                      | Some (v, after') => Some ((key, v), after')
                      | None => None
                      end
                    else None
                | [] => None
                end
            | None => None
            end
          else None
      | [] => None
      end
  end
with parse_members (fuel : nat) (s : jsstring) : option (list (jsstring * json) * jsstring) :=
  match fuel with
  | O => None
  | S fuel' =>
      match skip_space s with
      | c :: rest =>
          if N.eqb c (chr "}") then Some ([], rest)
          else if N.eqb c (chr ",") then
            match parse_member fuel' rest with
            | Some (m, after) =>
                match parse_members fuel' after with
                | Some (ms, after') => Some (m :: ms, after')
                | None => None
                end
            | None => None
            end
          else None
      | [] => None
      end
  end.

(** [JSON.parse]: one value, then nothing but white space. *)
Definition parse (text : jsstring) : result json :=
  match parse_value (S (length text)) text with
  | Some (v, after) =>
      match skip_space after with
      | [] => Ok v
      | _ :: _ => Throw SyntaxError
      end
  | None => Throw SyntaxError
  end.

#[global] Instance host : JSONHost json := {
  JSON_stringify v := Ok (Some (serialize v));
  JSON_parse := parse
}.

(** [{ alg: "HS256", typ: "JWT" }]. *)
Definition jwt_header : json :=
  JObject [(lit "alg", JString (lit "HS256")); (lit "typ", JString (lit "JWT"))].

End MiniJSON.

(** ** [buffer-polyfill.ts] *)

(** The first argument of [Buffer.from]: [string | Uint8Array | ArrayBuffer]. *)
Inductive from_value : Type :=
| VString (s : jsstring)
| VUint8Array (b : Uint8Array)
| VArrayBuffer (b : list byte).

(** The second argument: absent, a string or a number. *)
Inductive encoding_or_offset (number : Type) : Type :=
| EUndefined
| EString (enc : jsstring)
| ENumber (offset : number).

Arguments EUndefined {number}.
Arguments EString {number} enc.
Arguments ENumber {number} offset.

(** The host's [Buffer.from] as it is before the shim is installed; an
    absent third argument is [None]. *)
Class BufferHost (number Buffer : Type) : Type := {
  originalFrom : from_value -> encoding_or_offset number -> option number -> result Buffer
}.

Fixpoint jsstring_eqb (a b : jsstring) : bool :=
  match a, b with
  | [], [] => true
  | x :: a', y :: b' => N.eqb x y && jsstring_eqb a' b'
  | _, _ => false
  end.

(** [typeof encodingOrOffset === "string" && encodingOrOffset === "base64url"]. *)
Definition is_base64url {number : Type} (encodingOrOffset : encoding_or_offset number) : bool :=
  match encodingOrOffset with
  | EString enc => jsstring_eqb enc (lit "base64url")
  | _ => false
  end.

(** The function assigned to [Buffer.from]. Its call [Buffer.from(decoded)]
    looks the property up again and so enters the same function, with one
    argument; [fuel] bounds that nesting. *)
Fixpoint Buffer_from_fuel {number Buffer : Type} `{BufferHost number Buffer} (fuel : nat)
    (value : from_value) (encodingOrOffset : encoding_or_offset number)
    (length : option number) : result Buffer :=
  match fuel with
  | O => NoFuel
  | S fuel' =>
      if is_base64url encodingOrOffset then
        match value with
        | VString s =>
            decoded <- decode s ;;
            Buffer_from_fuel fuel' (VUint8Array decoded) EUndefined None
        | _ => Throw TypeError
        end
      else
        match encodingOrOffset with
        | ENumber _ => originalFrom value encodingOrOffset length
        | _ => originalFrom value encodingOrOffset None
        end
  end.

Definition Buffer_from {number Buffer : Type} `{BufferHost number Buffer}
    (value : from_value) (encodingOrOffset : encoding_or_offset number)
    (length : option number) : result Buffer :=
  Buffer_from_fuel 2 value encodingOrOffset length.

(** A host factory that returns the arguments it was called with. *)
Definition recording_host : BufferHost N (from_value * encoding_or_offset N * option N) := {|
  originalFrom value encodingOrOffset length := Ok (value, encodingOrOffset, length)
|}.

(** ** [Buffer.prototype.toString] *)

(** What the shim needs of a host buffer: its bytes, as
    [new Uint8Array(this)] copies them, and the [toString] it had before
    the shim was installed; an absent encoding is [None]. *)
Class BufferTextHost (Buffer : Type) : Type := {
  buffer_bytes : Buffer -> Uint8Array;
  originalToString : Buffer -> option jsstring -> result jsstring
}.

(** The function assigned to [Buffer.prototype.toString]. *)
Definition Buffer_toString {Buffer : Type} `{BufferTextHost Buffer}
    (this : Buffer) (encoding : option jsstring) : result jsstring :=
  if match encoding with
     | Some enc => jsstring_eqb enc (lit "base64url")
     | None => false
     end
  then encode (Bytes (buffer_bytes this))
  else originalToString this encoding.

(** A host whose buffers are their bytes and whose one text encoding is
    UTF-8, to run the shim on. *)
Definition utf8_from : BufferHost N Uint8Array := {|
  originalFrom value encodingOrOffset length :=
    match value with
    | VString s => Ok (Text.TextEncoder_encode s)
    | VUint8Array b => Ok b
    | VArrayBuffer b => Ok b
    end
|}.

Definition utf8_text : BufferTextHost Uint8Array := {|
  buffer_bytes b := b;
  originalToString b encoding := Ok (Text.TextDecoder_decode b)
|}.

(** ** More notions for statements *)

(** The standard alphabet is closed under the substitution of [decode]. *)
Definition std_table_ok (i : N) : bool :=
  N.eqb (from_url_char (Host.b64_char i)) (Host.b64_char i).

(** A string of 16-bit code units, as every JavaScript string is. *)
Definition code_units (s : jsstring) : Prop := Forall (fun c => (c <= 0xFFFF)%N) s.

(** The string with U+FFFD in the place of every surrogate that is not half
    of a pair. *)
Fixpoint replace_lone_surrogates (s : jsstring) : jsstring :=
  match s with
  | [] => []
  | c :: rest =>
      if Text.is_lead_surrogate c then
        match rest with
        | d :: rest' =>
            if Text.is_trail_surrogate d
            then c :: d :: replace_lone_surrogates rest'
            else 0xFFFD%N :: replace_lone_surrogates rest
        | [] => [0xFFFD%N]
        end
      else if Text.is_trail_surrogate c then 0xFFFD%N :: replace_lone_surrogates rest
      else c :: replace_lone_surrogates rest
  end.

(** The string without a U+FEFF at its front. *)
Definition drop_bom (s : jsstring) : jsstring :=
  match s with
  | c :: rest => if N.eqb c 0xFEFF then rest else s
  | [] => []
  end.

(** A string with its lone surrogates replaced, then its leading U+FEFF
    dropped. *)
Definition sanitized (s : jsstring) : jsstring :=
  drop_bom (replace_lone_surrogates s).

(** Six-bit values with the bits cleared that a final group of two or three
    does not use: the last four of two values, the last two of three. *)
Fixpoint canonical_sextets (sx : list N) : list N :=
  match sx with
  | [] => []
  | [s0] => [s0]
  | [s0; s1] => [s0; (s1 / 16 * 16)%N]
  | [s0; s1; s2] => [s0; s1; (s2 / 4 * 4)%N]
  | s0 :: s1 :: s2 :: s3 :: rest => s0 :: s1 :: s2 :: s3 :: canonical_sextets rest
  end.

(** ["SGVs"], two line breaks and a space, ["bG8"]. *)
Definition wrapped_text : jsstring :=
  lit "SGVs" ++ [10; 32; 13; 10]%N ++ lit "bG8".

(** * Properties *)

Local Open Scope N_scope.

(** ** Known vectors *)

Example encode_hello :
  encode (Str (lit "Hello, World!")) = Ok (lit "SGVsbG8sIFdvcmxkIQ").
Proof. vm_compute. reflexivity. Qed.

Example decode_hello :
  decode (lit "SGVsbG8sIFdvcmxkIQ") = Ok (bytes_of_ascii "Hello, World!").
Proof. vm_compute. reflexivity. Qed.

Example decodeToString_hello :
  decodeToString (lit "SGVsbG8sIFdvcmxkIQ") = Ok (lit "Hello, World!").
Proof. vm_compute. reflexivity. Qed.

(** ** Finite case distinctions *)

Lemma below_complete (k : nat) (f : N -> bool) :
  forallb f (below k) = true -> forall n, n < N.of_nat k -> f n = true.
Proof.
  intros Hall n Hn. rewrite forallb_forall in Hall. apply Hall.
  unfold below. apply in_map_iff. exists (N.to_nat n). split.
  - apply N2Nat.id.
  - apply in_seq. lia.
Qed.

(** ** Bytes *)

Lemma ToUint8_to_N (b : byte) : ToUint8 (Byte.to_N b) = b.
Proof. destruct b; reflexivity. Qed.

Lemma map_ToUint8_to_N (bs : Uint8Array) : map ToUint8 (map Byte.to_N bs) = bs.
Proof.
  induction bs as [|b bs IH]; simpl; [reflexivity|].
  now rewrite ToUint8_to_N, IH.
Qed.

Lemma to_N_lt_256 (b : byte) : Byte.to_N b < 256.
Proof. pose proof (Byte.to_N_bounded b). lia. Qed.

(** ** The loops of [encode] *)

Lemma append_chunk_map (chunk : Uint8Array) (acc : jsstring) :
  append_chunk acc chunk = acc ++ map fromCharCode chunk.
Proof.
  unfold append_chunk. revert acc.
  induction chunk as [|b chunk IH]; intros acc; simpl.
  - now rewrite app_nil_r.
  - rewrite IH, <- app_assoc. reflexivity.
Qed.

Section ChunkLoop.

Variable cs : nat.
Hypothesis cs_pos : (0 < cs)%nat.

Lemma slice_skipn (bytes : Uint8Array) (i : nat) :
  slice bytes i (i + cs) ++ skipn (i + cs) bytes = skipn i bytes.
Proof.
  unfold slice. replace (i + cs - i)%nat with cs by lia.
  rewrite Nat.add_comm, <- skipn_skipn. apply firstn_skipn.
Qed.

Lemma chunk_loop_spec (fuel : nat) :
  forall (bytes : Uint8Array) (i : nat) (acc : jsstring),
    (length bytes <= fuel + i)%nat ->
    chunk_loop fuel cs bytes i acc = Ok (acc ++ map fromCharCode (skipn i bytes)).
Proof.
  induction fuel as [|fuel IH]; intros bytes i acc Hlen; simpl.
  - destruct (Nat.ltb_spec i (length bytes)) as [Hlt|Hge]; [lia|].
    rewrite skipn_all2 by lia. now rewrite app_nil_r.
  - destruct (Nat.ltb_spec i (length bytes)) as [Hlt|Hge].
    + rewrite IH by lia. rewrite append_chunk_map, <- app_assoc, <- map_app, slice_skipn.
      reflexivity.
    + rewrite skipn_all2 by lia. now rewrite app_nil_r.
Qed.

Lemma chunk_loop_whole (bytes : Uint8Array) :
  chunk_loop (S (length bytes)) cs bytes 0 [] = Ok (map fromCharCode bytes).
Proof. rewrite chunk_loop_spec by lia. reflexivity. Qed.

End ChunkLoop.

Lemma chunkSize_pos : (0 < chunkSize)%nat.
Proof. unfold chunkSize. apply Nat.ltb_lt. vm_compute. reflexivity. Qed.

(** ** The two alphabets *)

Lemma char_table (i : N) : i < 64 -> char_facts i.
Proof.
  intros Hi.
  assert (Hok : char_table_ok i = true).
  { apply (below_complete 64 char_table_ok); [vm_compute; reflexivity | exact Hi]. }
  unfold char_table_ok in Hok.
  repeat (apply andb_prop in Hok; destruct Hok as [Hok ?]).
  constructor.
  - destruct (Host.b64_index (Host.b64_char i)) as [j|]; [|discriminate].
    apply N.eqb_eq in Hok. now subst.
  - now apply negb_true_iff.
  - now apply negb_true_iff.
  - now apply N.eqb_eq.
  - now apply N.eqb_eq.
  - now apply negb_true_iff.
  - assumption.
  - match goal with
    | H : (_ || _ || _)%bool = true |- _ =>
        apply orb_prop in H; destruct H as [H|H];
        [apply orb_prop in H; destruct H as [H|H]|]
    end.
    + now left.
    + right; left. now apply N.eqb_eq.
    + right; right. now apply N.eqb_eq.
  - match goal with
    | H : match Host.index_of _ _ with Some _ => _ | None => _ end = true |- _ =>
        destruct (Host.index_of (url_char i) url_alphabet) as [j|]; [|discriminate];
        apply N.eqb_eq in H; now subst
    end.
Qed.

Lemma index_of_nth (c : code_unit) (l : jsstring) (i : N) :
  Host.index_of c l = Some i ->
  (N.to_nat i < length l)%nat /\ nth (N.to_nat i) l 0 = c.
Proof.
  revert i. induction l as [|x l IH]; intros i; simpl; [discriminate|].
  destruct (N.eqb_spec c x) as [->|Hne].
  - intros [= <-]. simpl. split; [lia | reflexivity].
  - destruct (Host.index_of c l) as [j|]; [|discriminate].
    simpl. intros [= <-]. destruct (IH j eq_refl) as [Hlt Hnth].
    rewrite N2Nat.inj_succ. simpl. split; [lia | exact Hnth].
Qed.

Lemma is_url_char_inv (c : code_unit) :
  is_url_char c = true -> exists i, i < 64 /\ c = url_char i.
Proof.
  unfold is_url_char. destruct (Host.index_of c url_alphabet) as [i|] eqn:E; [|discriminate].
  intros _. apply index_of_nth in E. destruct E as [Hlt Hnth].
  exists i. split; [|now rewrite <- Hnth].
  change (length url_alphabet) with 64%nat in Hlt. lia.
Qed.

Lemma is_b64_char_inv (c : code_unit) :
  Host.is_b64_char c = true -> exists i, i < 64 /\ c = Host.b64_char i.
Proof.
  unfold Host.is_b64_char, Host.b64_index.
  destruct (Host.index_of c Host.alphabet) as [i|] eqn:E; [|discriminate].
  intros _. apply index_of_nth in E. destruct E as [Hlt Hnth].
  exists i. split; [|now rewrite <- Hnth].
  change (length Host.alphabet) with 64%nat in Hlt. lia.
Qed.

Lemma is_b64_char_b64_char (i : N) : i < 64 -> Host.is_b64_char (Host.b64_char i) = true.
Proof.
  intros Hi. unfold Host.is_b64_char. now rewrite (cf_index i (char_table i Hi)).
Qed.

Lemma sextet_b64_char (i : N) : i < 64 -> Host.sextet (Host.b64_char i) = i.
Proof.
  intros Hi. unfold Host.sextet. now rewrite (cf_index i (char_table i Hi)).
Qed.

Lemma land_63_lt (x : N) : N.land x 63 < 64.
Proof.
  change 63 with (N.ones 6). rewrite N.land_ones. now apply N.mod_lt.
Qed.


(** ** Induction three elements at a time *)

Lemma list_ind3 {A : Type} (P : list A -> Prop) :
  P [] -> (forall a, P [a]) -> (forall a b, P [a; b]) ->
  (forall a b c l, P l -> P (a :: b :: c :: l)) ->
  forall l, P l.
Proof.
  intros H0 H1 H2 H3 l.
  enough (H : P l /\ (forall a, P (a :: l)) /\ (forall a b, P (a :: b :: l))) by apply H.
  induction l as [|x l (IH0 & IH1 & IH2)].
  - auto.
  - repeat split; auto.
Qed.

(** ** [encode], one group at a time *)

Lemma to_base64url_char (i : N) (s : jsstring) :
  i < 64 -> to_base64url (Host.b64_char i :: s) = url_char i :: to_base64url s.
Proof.
  intros Hi. destruct (char_table i Hi) as [_ _ _ Hto _ Hpad _ _ _].
  unfold to_base64url, remove_all, replace_all in *. simpl.
  fold (to_url_char (Host.b64_char i)). rewrite Hto, Hpad. reflexivity.
Qed.

Lemma to_base64url_pad (s : jsstring) :
  to_base64url (Host.pad :: s) = to_base64url s.
Proof. reflexivity. Qed.


Lemma to_base64url_encode_groups (bs : list N) :
  to_base64url (Host.encode_groups bs) = map url_char (sextets_of_bytes bs).
Proof.
  induction bs as [|a|a b|a b c l IH] using list_ind3.
  - reflexivity.
  - cbn [Host.encode_groups sextets_of_bytes map].
    now rewrite !to_base64url_char, !to_base64url_pad by apply land_63_lt.
  - cbn [Host.encode_groups sextets_of_bytes map].
    now rewrite !to_base64url_char, !to_base64url_pad by apply land_63_lt.
  - cbn [Host.encode_groups sextets_of_bytes map].
    now rewrite !to_base64url_char, IH by apply land_63_lt.
Qed.

Lemma sextets_lt_64 (bs : list N) : Forall (fun i => i < 64) (sextets_of_bytes bs).
Proof.
  induction bs as [|a|a b|a b c l IH] using list_ind3;
    cbn [sextets_of_bytes]; repeat (constructor; try apply land_63_lt); assumption.
Qed.

Lemma btoa_bytes (bytes : Uint8Array) :
  Host.btoa (map fromCharCode bytes) = Ok (Host.encode_groups (map Byte.to_N bytes)).
Proof.
  unfold Host.btoa.
  replace (forallb (fun c => N.leb c 255) (map fromCharCode bytes)) with true; [reflexivity|].
  symmetry. apply forallb_forall. intros c Hc.
  apply in_map_iff in Hc. destruct Hc as (b & <- & _).
  apply N.leb_le. apply Byte.to_N_bounded.
Qed.

(** The value of [encode] on a byte array, for any positive chunk size. *)
Lemma encode_with_bytes (cs : nat) (bytes : Uint8Array) :
  (0 < cs)%nat ->
  encode_with cs (Bytes bytes) = Ok (map url_char (sextets_of_bytes (map Byte.to_N bytes))).
Proof.
  intros Hcs. unfold encode_with. cbn [bind].
  rewrite chunk_loop_whole by assumption. cbn [bind].
  rewrite btoa_bytes. cbn [bind].
  now rewrite to_base64url_encode_groups.
Qed.

Lemma encode_bytes_value (bytes : Uint8Array) :
  encode (Bytes bytes) = Ok (map url_char (sextets_of_bytes (map Byte.to_N bytes))).
Proof. apply encode_with_bytes, chunkSize_pos. Qed.

Lemma encode_str_bytes (s : jsstring) :
  encode (Str s) = encode (Bytes (Text.TextEncoder_encode s)).
Proof. reflexivity. Qed.

Lemma encode_unchunked_bytes (bytes : Uint8Array) :
  encode_unchunked (Bytes bytes)
  = Ok (map url_char (sextets_of_bytes (map Byte.to_N bytes))).
Proof.
  unfold encode_unchunked. cbn [bind].
  rewrite append_chunk_map. cbn [app].
  rewrite btoa_bytes. cbn [bind].
  now rewrite to_base64url_encode_groups.
Qed.

Lemma url_safe_map_url_char (sx : list N) :
  Forall (fun i => i < 64) sx -> url_safe (map url_char sx).
Proof.
  unfold url_safe. induction 1 as [|i sx Hi _ IH]; simpl; [reflexivity|].
  now rewrite (cf_url i (char_table i Hi)), IH.
Qed.

Lemma url_safe_pure (s : jsstring) : url_safe s -> alphabet_pure s.
Proof.
  unfold url_safe, alphabet_pure. intros Hs c Hc.
  rewrite forallb_forall in Hs. specialize (Hs c Hc).
  repeat split; try assumption; intros ->; vm_compute in Hs; discriminate.
Qed.

(** ** Lengths *)

Lemma ceil3_step (n : nat) : ((S (S (S n)) + 2) / 3 = S ((n + 2) / 3))%nat.
Proof.
  replace (S (S (S n)) + 2)%nat with ((n + 2) + 1 * 3)%nat by lia.
  rewrite Nat.div_add by lia. lia.
Qed.

Lemma stripped_step (n : nat) : stripped (S (S (S n))) = stripped n.
Proof.
  unfold stripped.
  replace (S (S (S n))) with (n + 1 * 3)%nat by lia.
  now rewrite Nat.Div0.mod_add.
Qed.


Lemma length_encode_groups (bs : list N) :
  length (Host.encode_groups bs) = (4 * ((length bs + 2) / 3))%nat.
Proof.
  induction bs as [|a|a b|a b c l IH] using list_ind3; try reflexivity.
  cbn [Host.encode_groups length]. rewrite IH, ceil3_step. lia.
Qed.

Lemma length_sextets (bs : list N) :
  (length (sextets_of_bytes bs) + stripped (length bs) = 4 * ((length bs + 2) / 3))%nat.
Proof.
  induction bs as [|a|a b|a b c l IH] using list_ind3; try reflexivity.
  cbn [sextets_of_bytes length]. rewrite stripped_step, ceil3_step. lia.
Qed.

(** ** Shifts and masks as arithmetic *)

Lemma lor_add (a b k : N) : b < 2 ^ k -> N.lor (a * 2 ^ k) b = a * 2 ^ k + b.
Proof.
  intros Hb.
  assert (Hland : N.land (a * 2 ^ k) b = 0).
  { apply N.bits_inj. intros n. rewrite N.land_spec, N.bits_0, <- N.shiftl_mul_pow2.
    destruct (N.lt_ge_cases n k) as [Hlt|Hge].
    - now rewrite N.shiftl_spec_low.
    - rewrite <- (N.mod_small b (2 ^ k)) by assumption.
      rewrite N.mod_pow2_bits_high by assumption. apply andb_false_r. }
  now rewrite N.add_nocarry_lxor, N.lxor_lor.
Qed.

Lemma lor_add_low (x b p k : N) :
  p = 2 ^ k -> x mod p = 0 -> b < p -> N.lor x b = x + b.
Proof.
  intros -> Hx Hb.
  assert (Hp : 2 ^ k <> 0) by (apply N.pow_nonzero; discriminate).
  pose proof (N.div_mod' x (2 ^ k)) as E. rewrite Hx, N.add_0_r in E.
  rewrite E, N.mul_comm. now apply lor_add.
Qed.

Lemma land_63 (x : N) : N.land x 63 = x mod 64.
Proof. change 63 with (N.ones 6). now rewrite N.land_ones. Qed.

Lemma land_255 (x : N) : N.land x 255 = x mod 256.
Proof. change 255 with (N.ones 8). now rewrite N.land_ones. Qed.

Lemma shiftl_mul (a k p : N) : p = 2 ^ k -> N.shiftl a k = a * p.
Proof. intros ->. apply N.shiftl_mul_pow2. Qed.

Lemma shiftr_div (a k p : N) : p = 2 ^ k -> N.shiftr a k = a / p.
Proof. intros ->. apply N.shiftr_div_pow2. Qed.

Lemma div_mul_add (q r d : N) : r < d -> (q * d + r) / d = q.
Proof. intros Hr. symmetry. apply (N.div_unique _ d q r); lia. Qed.

Lemma mod_mul_add (q r d : N) : r < d -> (q * d + r) mod d = r.
Proof. intros Hr. symmetry. apply (N.mod_unique _ d q r); lia. Qed.

(** Rewrites every shift by a literal amount into a product or quotient,
    and the masks [63] and [255] into remainders. *)
Ltac shifts_to_arith :=
  repeat match goal with
    | |- context [N.shiftl ?a ?k] =>
        let p := eval vm_compute in (2 ^ k) in
        rewrite (shiftl_mul a k p) by reflexivity
    | |- context [N.shiftr ?a ?k] =>
        let p := eval vm_compute in (2 ^ k) in
        rewrite (shiftr_div a k p) by reflexivity
    end;
  rewrite ?land_63, ?land_255.

Lemma join2 (n : N) : n < 4096 -> (n / 64) mod 64 * 64 + n mod 64 = n.
Proof.
  intros Hn. pose proof (N.div_mod' n 64) as E1.
  assert (n / 64 < 64) by (apply N.Div0.div_lt_upper_bound; lia).
  rewrite (N.mod_small (n / 64) 64) by assumption. lia.
Qed.

Lemma join3 (n : N) :
  n < 262144 -> (n / 4096) mod 64 * 4096 + (n / 64) mod 64 * 64 + n mod 64 = n.
Proof.
  intros Hn.
  pose proof (N.div_mod' n 64) as E1.
  pose proof (N.div_mod' (n / 64) 64) as E2.
  replace (n / 64 / 64) with (n / 4096) in E2 by (rewrite N.Div0.div_div; reflexivity).
  assert (n / 4096 < 64) by (apply N.Div0.div_lt_upper_bound; lia).
  rewrite (N.mod_small (n / 4096) 64) by assumption. lia.
Qed.

Lemma join4 (n : N) :
  n < 16777216 ->
  (n / 262144) mod 64 * 262144 + (n / 4096) mod 64 * 4096 + (n / 64) mod 64 * 64 + n mod 64 = n.
Proof.
  intros Hn.
  pose proof (N.div_mod' n 64) as E1.
  pose proof (N.div_mod' (n / 64) 64) as E2.
  pose proof (N.div_mod' (n / 4096) 64) as E3.
  replace (n / 64 / 64) with (n / 4096) in E2 by (rewrite N.Div0.div_div; reflexivity).
  replace (n / 4096 / 64) with (n / 262144) in E3 by (rewrite N.Div0.div_div; reflexivity).
  assert (n / 262144 < 64) by (apply N.Div0.div_lt_upper_bound; lia).
  rewrite (N.mod_small (n / 262144) 64) by assumption. lia.
Qed.

(** Joining six-bit values with [N.lor] is adding them up. *)
Lemma lor_sextets2 (s0 s1 : N) :
  s1 < 64 -> N.lor (s0 * 64) s1 = s0 * 64 + s1.
Proof. intros H1. apply (lor_add s0 s1 6 H1). Qed.

Lemma lor_sextets3 (s0 s1 s2 : N) :
  s1 < 64 -> s2 < 64 ->
  N.lor (N.lor (s0 * 4096) (s1 * 64)) s2 = s0 * 4096 + s1 * 64 + s2.
Proof.
  intros H1 H2.
  rewrite (lor_add_low (s0 * 4096) (s1 * 64) 4096 12) by (try reflexivity; try lia;
    replace (s0 * 4096) with (s0 * 4096 + 0) by lia; now apply mod_mul_add).
  apply (lor_add_low _ s2 64 6); [reflexivity | | assumption].
  replace (s0 * 4096 + s1 * 64) with ((s0 * 64 + s1) * 64 + 0) by lia.
  now apply mod_mul_add.
Qed.

Lemma lor_sextets4 (s0 s1 s2 s3 : N) :
  s1 < 64 -> s2 < 64 -> s3 < 64 ->
  N.lor (N.lor (N.lor (s0 * 262144) (s1 * 4096)) (s2 * 64)) s3
  = s0 * 262144 + s1 * 4096 + s2 * 64 + s3.
Proof.
  intros H1 H2 H3.
  rewrite (lor_add_low (s0 * 262144) (s1 * 4096) 262144 18) by (try reflexivity; try lia;
    replace (s0 * 262144) with (s0 * 262144 + 0) by lia; now apply mod_mul_add).
  rewrite (lor_add_low (s0 * 262144 + s1 * 4096) (s2 * 64) 4096 12)
    by (try reflexivity; try lia;
        replace (s0 * 262144 + s1 * 4096) with ((s0 * 64 + s1) * 4096 + 0) by lia;
        now apply mod_mul_add).
  apply (lor_add_low _ s3 64 6); [reflexivity | | assumption].
  replace (s0 * 262144 + s1 * 4096 + s2 * 64)
    with ((s0 * 4096 + s1 * 64 + s2) * 64 + 0) by lia.
  now apply mod_mul_add.
Qed.

Lemma lor_bytes2 (b0 b1 : N) : b1 < 256 -> N.lor (b0 * 256) b1 = b0 * 256 + b1.
Proof. intros H1. apply (lor_add b0 b1 8 H1). Qed.

Lemma lor_bytes3 (b0 b1 b2 : N) :
  b1 < 256 -> b2 < 256 ->
  N.lor (N.lor (b0 * 65536) (b1 * 256)) b2 = b0 * 65536 + b1 * 256 + b2.
Proof.
  intros H1 H2.
  rewrite (lor_add_low (b0 * 65536) (b1 * 256) 65536 16) by (try reflexivity; try lia;
    replace (b0 * 65536) with (b0 * 65536 + 0) by lia; now apply mod_mul_add).
  apply (lor_add_low _ b2 256 8); [reflexivity | | assumption].
  replace (b0 * 65536 + b1 * 256) with ((b0 * 256 + b1) * 256 + 0) by lia.
  now apply mod_mul_add.
Qed.

(** ** The bit buffer undoes the grouping *)

Lemma bytes3_split (b0 b1 b2 : N) :
  b0 < 256 -> b1 < 256 -> b2 < 256 ->
  let n := b0 * 65536 + b1 * 256 + b2 in
  (n / 65536) mod 256 = b0 /\ (n / 256) mod 256 = b1 /\ n mod 256 = b2.
Proof.
  intros H0 H1 H2 n. subst n. repeat split.
  - rewrite <- N.add_assoc, div_mul_add by lia. now apply N.mod_small.
  - replace (b0 * 65536 + b1 * 256 + b2) with ((b0 * 256 + b1) * 256 + b2) by lia.
    rewrite div_mul_add by lia. apply mod_mul_add; lia.
  - replace (b0 * 65536 + b1 * 256 + b2) with ((b0 * 256 + b1) * 256 + b2) by lia.
    apply mod_mul_add; lia.
Qed.

Lemma mod_64_lt (x : N) : x mod 64 < 64.
Proof. now apply N.mod_lt. Qed.

Lemma group3_roundtrip (b0 b1 b2 : N) (rest : list N) :
  b0 < 256 -> b1 < 256 -> b2 < 256 ->
  Host.decode_groups (sextets_of_bytes (b0 :: b1 :: b2 :: rest))
  = b0 :: b1 :: b2 :: Host.decode_groups (sextets_of_bytes rest).
Proof.
  intros H0 H1 H2. cbn [sextets_of_bytes Host.decode_groups].
  shifts_to_arith.
  rewrite lor_bytes3 by assumption.
  rewrite lor_sextets4 by apply mod_64_lt.
  rewrite join4 by lia.
  destruct (bytes3_split b0 b1 b2 H0 H1 H2) as (E0 & E1 & E2).
  now rewrite E0, E1, E2.
Qed.

Lemma group2_roundtrip (b0 b1 : N) :
  b0 < 256 -> b1 < 256 ->
  Host.decode_groups (sextets_of_bytes [b0; b1]) = [b0; b1].
Proof.
  intros H0 H1. cbn [sextets_of_bytes Host.decode_groups].
  shifts_to_arith.
  rewrite lor_bytes2 by assumption.
  rewrite lor_sextets3 by apply mod_64_lt.
  rewrite join3 by lia.
  replace ((b0 * 256 + b1) * 4 / 4) with (b0 * 256 + b1)
    by (symmetry; apply N.div_mul; discriminate).
  rewrite div_mul_add, mod_mul_add by assumption.
  now rewrite N.mod_small.
Qed.

Lemma group1_roundtrip (b0 : N) :
  b0 < 256 -> Host.decode_groups (sextets_of_bytes [b0]) = [b0].
Proof.
  intros H0. cbn [sextets_of_bytes Host.decode_groups].
  shifts_to_arith.
  rewrite lor_sextets2 by apply mod_64_lt.
  rewrite join2 by lia.
  replace (b0 * 16 / 16) with b0 by (symmetry; apply N.div_mul; discriminate).
  now rewrite N.mod_small.
Qed.

Lemma decode_groups_sextets (bs : list N) :
  Forall (fun b => b < 256) bs -> Host.decode_groups (sextets_of_bytes bs) = bs.
Proof.
  induction bs as [|a|a b|a b c l IH] using list_ind3; intros Hbs.
  - reflexivity.
  - inversion_clear Hbs. now apply group1_roundtrip.
  - inversion_clear Hbs as [|? ? Ha Hbs']. inversion_clear Hbs'.
    now apply group2_roundtrip.
  - inversion_clear Hbs as [|? ? Ha Hbs']. inversion_clear Hbs' as [|? ? Hb Hbs''].
    inversion_clear Hbs'' as [|? ? Hc Hl].
    rewrite group3_roundtrip by assumption. now rewrite IH.
Qed.

Lemma Forall_to_N_lt_256 (bytes : Uint8Array) :
  Forall (fun b => b < 256) (map Byte.to_N bytes).
Proof.
  induction bytes as [|b bytes IH]; simpl; constructor; [apply to_N_lt_256 | exact IH].
Qed.

Lemma length_sextets_mod4 (bs : list N) : (length (sextets_of_bytes bs) mod 4 <> 1)%nat.
Proof.
  induction bs as [|a|a b|a b c l IH] using list_ind3; try (cbn; discriminate).
  cbn [sextets_of_bytes length].
  replace (S (S (S (S (length (sextets_of_bytes l))))))
    with (length (sextets_of_bytes l) + 1 * 4)%nat by lia.
  now rewrite Nat.Div0.mod_add.
Qed.

(** ** [atob] on a padded string *)

Lemma filter_all {A : Type} (f : A -> bool) (l : list A) :
  (forall x, In x l -> f x = true) -> filter f l = l.
Proof.
  induction l as [|x l IH]; intros H; simpl; [reflexivity|].
  rewrite (H x (or_introl eq_refl)), IH; [reflexivity|].
  intros y Hy. apply H. now right.
Qed.

Lemma b64_char_not_pad (c : code_unit) :
  Host.is_b64_char c = true -> N.eqb c Host.pad = false.
Proof.
  intros Hc. destruct (is_b64_char_inv c Hc) as (i & Hi & ->).
  apply (cf_pad i (char_table i Hi)).
Qed.

Lemma b64_char_not_space (c : code_unit) :
  Host.is_b64_char c = true -> Host.is_ascii_whitespace c = false.
Proof.
  intros Hc. destruct (is_b64_char_inv c Hc) as (i & Hi & ->).
  apply (cf_space i (char_table i Hi)).
Qed.

Lemma mod4_shift (q r k : nat) : ((r + k) mod 4 = 0 -> (4 * q + r + k) mod 4 = 0)%nat.
Proof.
  intros H. replace (4 * q + r + k)%nat with ((r + k) + q * 4)%nat by lia.
  now rewrite Nat.Div0.mod_add.
Qed.

Lemma padded_length_mod4 (a : nat) :
  (a mod 4 <> 1 -> (a + (4 - a mod 4) mod 4) mod 4 = 0)%nat.
Proof.
  intros H. pose proof (Nat.mod_upper_bound a 4 ltac:(lia)) as Hr.
  rewrite (Nat.div_mod_eq a 4) at 1.
  remember (a mod 4)%nat as r. remember (a / 4)%nat as q.
  assert (Hc : (r = 0 \/ r = 2 \/ r = 3)%nat) by lia.
  destruct Hc as [-> | [-> | ->]]; apply mod4_shift; reflexivity.
Qed.

Section Padded.

Variable X : jsstring.
Hypothesis X_chars : forallb Host.is_b64_char X = true.
Hypothesis X_length : (length X mod 4 <> 1)%nat.

Lemma X_in (c : code_unit) : In c X -> Host.is_b64_char c = true.
Proof. intros Hc. rewrite forallb_forall in X_chars. now apply X_chars. Qed.

Lemma padded_no_space :
  filter (fun c => negb (Host.is_ascii_whitespace c)) (X ++ repeat Host.pad ((4 - length X mod 4) mod 4))
  = X ++ repeat Host.pad ((4 - length X mod 4) mod 4).
Proof.
  apply filter_all. intros c Hc. apply in_app_or in Hc. destruct Hc as [Hc|Hc].
  - now rewrite b64_char_not_space by now apply X_in.
  - apply repeat_spec in Hc. subst c. reflexivity.
Qed.

Lemma rev_head_in (p : code_unit) (r : jsstring) : rev X = p :: r -> In p X.
Proof.
  intros E. apply in_rev. rewrite E. now left.
Qed.

Lemma strip_padding_padded : Host.strip_padding (X ++ repeat Host.pad ((4 - length X mod 4) mod 4)) = X.
Proof.
  unfold Host.strip_padding.
  replace (length (X ++ repeat Host.pad ((4 - length X mod 4) mod 4)) mod 4)%nat with 0%nat
    by (rewrite length_app, repeat_length; symmetry; now apply padded_length_mod4).
  cbn [Nat.eqb].
  pose proof (Nat.mod_upper_bound (length X) 4 ltac:(lia)) as Hr.
  destruct (length X mod 4)%nat as [|[|[|[|?]]]] eqn:E; try lia.
  - cbn [Nat.sub Nat.modulo Nat.divmod snd repeat]. rewrite app_nil_r.
    destruct (rev X) as [|p1 [|p2 r]] eqn:ER; [reflexivity| |];
      now rewrite (b64_char_not_pad p1 (X_in p1 (rev_head_in p1 _ ER))).
  - change ((4 - 2) mod 4)%nat with 2%nat. cbn [repeat].
    rewrite rev_app_distr. cbn [rev app]. rewrite !N.eqb_refl. apply rev_involutive.
  - change ((4 - 3) mod 4)%nat with 1%nat. cbn [repeat].
    rewrite rev_app_distr. cbn [rev app]. rewrite N.eqb_refl.
    destruct (rev X) as [|p2 r] eqn:ER.
    + apply (f_equal (@rev _)) in ER. rewrite rev_involutive in ER.
      rewrite ER in E. discriminate.
    + rewrite (b64_char_not_pad p2 (X_in p2 (rev_head_in p2 _ ER))).
      change (rev r ++ [p2]) with (rev (p2 :: r)). rewrite <- ER. apply rev_involutive.
Qed.

Lemma forgiving_decode_padded :
  Host.forgiving_base64_decode (X ++ repeat Host.pad ((4 - length X mod 4) mod 4))
  = Some (Host.decode_groups (map Host.sextet X)).
Proof.
  unfold Host.forgiving_base64_decode.
  rewrite padded_no_space, strip_padding_padded.
  destruct (Nat.eqb_spec (length X mod 4) 1) as [E|_]; [contradiction|].
  now rewrite X_chars.
Qed.

End Padded.

(** ** [decode] *)

Lemma decode_unfold (input : jsstring) :
  decode input
  = (binaryString <- Host.atob (map from_url_char input
                                ++ repeat (chr "=") ((4 - length input mod 4) mod 4)) ;;
     Ok (map ToUint8 binaryString))%js.
Proof.
  unfold decode, replace_all. rewrite map_map, length_map. reflexivity.
Qed.

Lemma decode_value (input : jsstring) :
  forallb Host.is_b64_char (map from_url_char input) = true ->
  (length input mod 4 <> 1)%nat ->
  decode input
  = Ok (map ToUint8 (Host.decode_groups (map Host.sextet (map from_url_char input)))).
Proof.
  intros Hchars Hlen. rewrite decode_unfold. unfold Host.atob.
  pose proof (forgiving_decode_padded (map from_url_char input) Hchars) as E.
  rewrite length_map in E. change Host.pad with (chr "=") in E.
  now rewrite (E Hlen).
Qed.

Lemma from_url_char_b64 (c : code_unit) :
  is_url_char c = true -> Host.is_b64_char (from_url_char c) = true.
Proof.
  intros Hc. destruct (is_url_char_inv c Hc) as (i & Hi & ->).
  rewrite (cf_from_url i (char_table i Hi)). now apply is_b64_char_b64_char.
Qed.

Lemma url_safe_from_url (input : jsstring) :
  url_safe input -> forallb Host.is_b64_char (map from_url_char input) = true.
Proof.
  unfold url_safe. induction input as [|c input IH]; simpl; [reflexivity|].
  intros H. apply andb_prop in H. destruct H as [Hc H].
  now rewrite from_url_char_b64, IH.
Qed.

Lemma from_url_url_char (sx : list N) :
  Forall (fun i => i < 64) sx -> map from_url_char (map url_char sx) = map Host.b64_char sx.
Proof.
  induction 1 as [|i sx Hi _ IH]; simpl; [reflexivity|].
  now rewrite (cf_from_url i (char_table i Hi)), IH.
Qed.

Lemma sextet_b64_chars (sx : list N) :
  Forall (fun i => i < 64) sx -> map Host.sextet (map Host.b64_char sx) = sx.
Proof.
  induction 1 as [|i sx Hi _ IH]; simpl; [reflexivity|].
  now rewrite sextet_b64_char, IH.
Qed.

(** [decode] on the characters of six-bit values. *)
Lemma decode_url_chars (sx : list N) :
  Forall (fun i => i < 64) sx -> (length sx mod 4 <> 1)%nat ->
  decode (map url_char sx) = Ok (map ToUint8 (Host.decode_groups sx)).
Proof.
  intros Hsx Hlen. rewrite decode_value.
  - now rewrite from_url_url_char, sextet_b64_chars.
  - apply url_safe_from_url. now apply url_safe_map_url_char.
  - now rewrite length_map.
Qed.

(** * The codec on byte arrays *)

(** [decode] on what [encode] returns for a byte array. *)
Lemma decode_encoded_bytes (b : Uint8Array) :
  decode (map url_char (sextets_of_bytes (map Byte.to_N b))) = Ok b.
Proof.
  rewrite decode_url_chars.
  - rewrite decode_groups_sextets by apply Forall_to_N_lt_256.
    now rewrite map_ToUint8_to_N.
  - apply sextets_lt_64.
  - apply length_sextets_mod4.
Qed.

(** C1. Round trip: for every byte sequence [b], [encode] returns a string
    and [decode] of that string returns [b]. This covers the empty
    sequence, single bytes and sequences over several 8192-byte chunks. *)
Theorem decode_encode_roundtrip (b : Uint8Array) :
  exists s, encode (Bytes b) = Ok s /\ decode s = Ok b.
Proof.
  exists (map url_char (sextets_of_bytes (map Byte.to_N b))). split.
  - unfold encode. apply encode_with_bytes, chunkSize_pos.
  - apply decode_encoded_bytes.
Qed.

Example roundtrip_empty : (s <- encode (Bytes []) ;; decode s) = Ok [].
Proof. vm_compute. reflexivity. Qed.

Example roundtrip_one_byte : (s <- encode (Bytes [xff]) ;; decode s) = Ok [xff].
Proof. vm_compute. reflexivity. Qed.

(** C2. Padding: on a string over the URL-safe alphabet whose length is 0, 2
    or 3 modulo 4, [decode] substitutes [-] and [_], appends
    [(4 - length mod 4) mod 4] characters [=], which makes the string padded
    standard Base64, and returns the bytes [atob] decodes from it. *)
Theorem decode_padding_correct (input : jsstring) :
  url_safe input ->
  (length input mod 4 = 0 \/ length input mod 4 = 2 \/ length input mod 4 = 3)%nat ->
  let base64 := replace_all (chr "_") (chr "/") (replace_all (chr "-") (chr "+") input) in
  let adjusted := base64 ++ repeat (chr "=") ((4 - length input mod 4) mod 4) in
  base64 = map from_url_char input
  /\ padded_base64 adjusted
  /\ exists binaryString,
       Host.atob adjusted = Ok binaryString
       /\ binaryString = Host.decode_groups (map Host.sextet base64)
       /\ decode input = Ok (map ToUint8 binaryString).
Proof.
  intros Hsafe Hlen base64 adjusted.
  assert (Hb : base64 = map from_url_char input).
  { subst base64. unfold replace_all. now rewrite map_map. }
  assert (Hmod : (length input mod 4 <> 1)%nat) by lia.
  pose proof (url_safe_from_url input Hsafe) as Hchars.
  split; [exact Hb|]. split.
  - exists base64, ((4 - length input mod 4) mod 4)%nat. repeat split.
    + destruct Hlen as [-> | [-> | ->]]; cbn; lia.
    + now rewrite Hb.
    + subst adjusted. rewrite length_app, repeat_length, Hb, length_map.
      now apply padded_length_mod4.
  - exists (Host.decode_groups (map Host.sextet base64)). repeat split.
    + subst adjusted. rewrite Hb. unfold Host.atob.
      pose proof (forgiving_decode_padded (map from_url_char input) Hchars) as E.
      rewrite length_map in E. change Host.pad with (chr "=") in E.
      now rewrite (E Hmod).
    + rewrite Hb. now apply decode_value.
Qed.

Lemma decode_padding_correct_witness :
  url_safe (lit "SGVsbG8sIFdvcmxkIQ")
  /\ (length (lit "SGVsbG8sIFdvcmxkIQ") mod 4 = 2)%nat
  /\ padded_base64 (lit "SGVsbG8sIFdvcmxkIQ==")
  /\ decode (lit "SGVsbG8sIFdvcmxkIQ") = Ok (bytes_of_ascii "Hello, World!").
Proof.
  assert (Hs : url_safe (lit "SGVsbG8sIFdvcmxkIQ")) by (vm_compute; reflexivity).
  assert (Hl : (length (lit "SGVsbG8sIFdvcmxkIQ") mod 4 = 0
                \/ length (lit "SGVsbG8sIFdvcmxkIQ") mod 4 = 2
                \/ length (lit "SGVsbG8sIFdvcmxkIQ") mod 4 = 3)%nat)
    by (right; left; reflexivity).
  destruct (decode_padding_correct (lit "SGVsbG8sIFdvcmxkIQ") Hs Hl)
    as (_ & Hpad & bs & _ & Hbs & Hdec).
  split; [exact Hs|]. split; [reflexivity|]. split; [exact Hpad|].
  rewrite Hdec, Hbs. vm_compute. reflexivity.
Defined.

(** C3. Alphabet purity: on a byte array as on a string, [encode] returns a
    string all of whose characters are of the URL-safe alphabet; none is
    [+], [/] or [=]. *)
Theorem encode_alphabet_pure :
  (forall b : Uint8Array, exists s, encode (Bytes b) = Ok s /\ alphabet_pure s)
  /\ (forall t : jsstring, exists s, encode (Str t) = Ok s /\ alphabet_pure s).
Proof.
  assert (Hb : forall b : Uint8Array, exists s, encode (Bytes b) = Ok s /\ alphabet_pure s).
  { intros b. eexists. split; [apply encode_bytes_value|].
    apply url_safe_pure, url_safe_map_url_char, sextets_lt_64. }
  split; [exact Hb|].
  intros t. rewrite encode_str_bytes. apply Hb.
Qed.

(** C4. Length: the standard Base64 text of [n] bytes has [4 * ceil(n/3)]
    characters, [encode] strips 0, 2 or 1 of them as [n mod 3] is 0, 1 or 2,
    and the empty byte array gives the empty string. *)
Theorem encode_length (b : Uint8Array) :
  (exists base64 s,
     Host.btoa (map fromCharCode b) = Ok base64
     /\ encode (Bytes b) = Ok s
     /\ s = to_base64url base64
     /\ length base64 = (4 * ((length b + 2) / 3))%nat
     /\ length s = (4 * ((length b + 2) / 3) - stripped (length b))%nat
     /\ stripped (length b) = match (length b mod 3)%nat with
                              | 0 => 0 | 1 => 2 | _ => 1
                              end%nat)
  /\ encode (Bytes []) = Ok [].
Proof.
  split; [|vm_compute; reflexivity].
  exists (Host.encode_groups (map Byte.to_N b)),
         (map url_char (sextets_of_bytes (map Byte.to_N b))).
  repeat split.
  - apply btoa_bytes.
  - apply encode_bytes_value.
  - symmetry. apply to_base64url_encode_groups.
  - now rewrite length_encode_groups, length_map.
  - pose proof (length_sextets (map Byte.to_N b)) as E.
    rewrite !length_map in *. lia.
Qed.

(** C5. Chunking: [encode], which walks the bytes in chunks of 8192, returns
    what [encode_unchunked] returns, which takes them as one block; so it
    does at the lengths 8192, 8193 and 16384. *)
Theorem encode_chunking_invisible (b : Uint8Array) :
  encode (Bytes b) = encode_unchunked (Bytes b)
  /\ exists s, encode (Bytes b) = Ok s.
Proof.
  rewrite encode_bytes_value, encode_unchunked_bytes. split; [reflexivity|].
  eexists. reflexivity.
Qed.

Example encode_across_chunks :
  encode (Bytes (repeat x61 8193)) = encode_unchunked (Bytes (repeat x61 8193)).
Proof. vm_compute. reflexivity. Qed.

(** ** Strings [atob] rejects *)

Lemma no_space_padded (X : jsstring) (n : nat) :
  forallb Host.is_b64_char X = true ->
  filter (fun c => negb (Host.is_ascii_whitespace c)) (X ++ repeat Host.pad n)
  = X ++ repeat Host.pad n.
Proof.
  intros HX. apply filter_all. intros c Hc. apply in_app_or in Hc. destruct Hc as [Hc|Hc].
  - rewrite forallb_forall in HX. now rewrite b64_char_not_space by now apply HX.
  - apply repeat_spec in Hc. subst c. reflexivity.
Qed.

Lemma mod4_add (a r k : nat) :
  (a mod 4 = r -> (a + k) mod 4 = (r + k) mod 4)%nat.
Proof.
  intros <-. rewrite <- Nat.Div0.add_mod_idemp_l. reflexivity.
Qed.

Lemma forgiving_decode_three_pads (X : jsstring) :
  forallb Host.is_b64_char X = true -> (length X mod 4 = 1)%nat ->
  Host.forgiving_base64_decode (X ++ repeat Host.pad 3) = None.
Proof.
  intros HX Hlen. unfold Host.forgiving_base64_decode.
  rewrite no_space_padded by assumption.
  assert (Hstrip : Host.strip_padding (X ++ repeat Host.pad 3) = X ++ [Host.pad]).
  { unfold Host.strip_padding.
    rewrite length_app, repeat_length, (mod4_add _ 1 3 Hlen).
    cbn [repeat Nat.add Nat.modulo Nat.divmod snd Nat.sub Nat.eqb].
    rewrite rev_app_distr. cbn [rev app]. rewrite !N.eqb_refl.
    cbn [rev]. now rewrite rev_involutive. }
  rewrite Hstrip, length_app, (mod4_add _ 1 _ Hlen). cbn [length Nat.add Nat.modulo Nat.divmod snd Nat.sub Nat.eqb].
  rewrite forallb_app. cbn. now rewrite andb_false_r.
Qed.

(** C10. On a string over the URL-safe alphabet whose length is 1 modulo 4,
    the padding formula gives three [=], [atob] rejects the padded string,
    and [decode] throws. *)
Theorem decode_length_1_mod_4_throws (input : jsstring) :
  url_safe input -> (length input mod 4 = 1)%nat ->
  ((4 - length input mod 4) mod 4 = 3)%nat
  /\ Host.atob (map from_url_char input ++ repeat (chr "=") 3) = Throw InvalidCharacterError
  /\ decode input = Throw InvalidCharacterError.
Proof.
  intros Hsafe Hlen.
  assert (Hpad : ((4 - length input mod 4) mod 4 = 3)%nat) by now rewrite Hlen.
  assert (Hatob : Host.atob (map from_url_char input ++ repeat (chr "=") 3)
                  = Throw InvalidCharacterError).
  { unfold Host.atob. change (chr "=") with Host.pad.
    rewrite forgiving_decode_three_pads; [reflexivity | now apply url_safe_from_url |].
    now rewrite length_map. }
  repeat split; try assumption.
  rewrite decode_unfold, Hpad, Hatob. reflexivity.
Qed.

Lemma decode_length_1_mod_4_throws_witness :
  url_safe (lit "SGVsb") /\ (length (lit "SGVsb") mod 4 = 1)%nat
  /\ decode (lit "SGVsb") = Throw InvalidCharacterError.
Proof.
  assert (Hs : url_safe (lit "SGVsb")) by (vm_compute; reflexivity).
  assert (Hl : (length (lit "SGVsb") mod 4 = 1)%nat) by reflexivity.
  split; [exact Hs|]. split; [exact Hl|].
  apply (decode_length_1_mod_4_throws (lit "SGVsb") Hs Hl).
Defined.

Example decode_one_char_throws : decode (lit "A") = Throw InvalidCharacterError.
Proof. vm_compute. reflexivity. Qed.

Lemma in_strip_padding (c : code_unit) (l : jsstring) :
  In c l -> N.eqb c Host.pad = false -> In c (Host.strip_padding l).
Proof.
  intros Hin Hc. unfold Host.strip_padding.
  destruct (Nat.eqb (length l mod 4) 0); [|exact Hin].
  assert (Hrev : In c (rev l)) by now apply in_rev in Hin.
  destruct (rev l) as [|p1 [|p2 r]] eqn:E; [exact Hin | |].
  - destruct (N.eqb_spec p1 Host.pad) as [->|_]; [|exact Hin].
    destruct Hrev as [<-|[]]. now rewrite N.eqb_refl in Hc.
  - destruct (N.eqb_spec p1 Host.pad) as [->|_]; [|exact Hin].
    destruct Hrev as [<-|Hrev]; [now rewrite N.eqb_refl in Hc|].
    destruct (N.eqb_spec p2 Host.pad) as [->|_].
    + destruct Hrev as [<-|Hrev]; [now rewrite N.eqb_refl in Hc|].
      now apply in_rev in Hrev.
    + now apply in_rev in Hrev.
Qed.

Lemma b64_char_url_or_std (c : code_unit) :
  Host.is_b64_char c = true -> is_url_or_std_char c = true.
Proof.
  intros Hc. destruct (is_b64_char_inv c Hc) as (i & Hi & ->).
  unfold is_url_or_std_char.
  destruct (cf_std i (char_table i Hi)) as [H|[H|H]]; rewrite H;
    [reflexivity | reflexivity | now rewrite orb_true_r].
Qed.

Lemma foreign_from_url_char (c : code_unit) :
  is_foreign_char c = true -> from_url_char c = c.
Proof.
  unfold is_foreign_char, is_url_or_std_char, from_url_char. intros H.
  destruct (N.eqb_spec c (chr "-")) as [->|_]; [vm_compute in H; discriminate|].
  destruct (N.eqb_spec c (chr "_")) as [->|_]; [vm_compute in H; discriminate|].
  reflexivity.
Qed.

Lemma forgiving_decode_foreign (c : code_unit) (data : jsstring) :
  is_foreign_char c = true -> In c data -> Host.forgiving_base64_decode data = None.
Proof.
  intros Hc Hin. unfold is_foreign_char in Hc.
  apply andb_prop in Hc. destruct Hc as [Hc Hspace].
  apply andb_prop in Hc. destruct Hc as [Halpha Hpad].
  apply negb_true_iff in Halpha, Hpad, Hspace.
  unfold Host.forgiving_base64_decode.
  set (data1 := filter _ data).
  assert (H1 : In c data1).
  { apply filter_In. split; [exact Hin | now rewrite Hspace]. }
  assert (H2 : In c (Host.strip_padding data1)) by now apply in_strip_padding.
  destruct (Nat.eqb (length (Host.strip_padding data1) mod 4) 1); [reflexivity|].
  destruct (forallb Host.is_b64_char (Host.strip_padding data1)) eqn:E; [|reflexivity].
  rewrite forallb_forall in E. specialize (E c H2).
  apply b64_char_url_or_std in E. congruence.
Qed.

Lemma decode_foreign (input : jsstring) :
  existsb is_foreign_char input = true -> decode input = Throw InvalidCharacterError.
Proof.
  intros H. apply existsb_exists in H. destruct H as (c & Hin & Hc).
  rewrite decode_unfold. unfold Host.atob.
  rewrite (forgiving_decode_foreign c); [reflexivity | exact Hc |].
  apply in_or_app. left. apply in_map_iff. exists c.
  split; [now apply foreign_from_url_char | exact Hin].
Qed.

Lemma url_or_std_from_url (c : code_unit) :
  is_url_or_std_char c = true ->
  Host.is_b64_char (from_url_char c) = true
  /\ from_url_char (to_url_char c) = from_url_char c
  /\ is_url_char (to_url_char c) = true.
Proof.
  unfold is_url_or_std_char. intros H.
  apply orb_prop in H. destruct H as [H|H]; [apply orb_prop in H; destruct H as [H|H]|].
  - assert (Hto : to_url_char c = c).
    { unfold to_url_char.
      destruct (N.eqb_spec c (chr "+")) as [->|_]; [vm_compute in H; discriminate|].
      destruct (N.eqb_spec c (chr "/")) as [->|_]; [vm_compute in H; discriminate|].
      reflexivity. }
    rewrite Hto. repeat split; try assumption. now apply from_url_char_b64.
  - apply N.eqb_eq in H. subst c. repeat split; vm_compute; reflexivity.
  - apply N.eqb_eq in H. subst c. repeat split; vm_compute; reflexivity.
Qed.

Lemma url_or_std_strings (input : jsstring) :
  forallb is_url_or_std_char input = true ->
  forallb Host.is_b64_char (map from_url_char input) = true
  /\ map from_url_char (map to_url_char input) = map from_url_char input
  /\ url_safe (map to_url_char input).
Proof.
  unfold url_safe. induction input as [|c input IH]; intros Hall; [now repeat split|].
  cbn [forallb] in Hall. apply andb_prop in Hall. destruct Hall as [Hc Hall].
  destruct (url_or_std_from_url c Hc) as (H1 & H2 & H3).
  destruct (IH Hall) as (I1 & I2 & I3).
  cbn [map forallb]. now rewrite H1, H2, H3, I1, I2, I3.
Qed.

Lemma decode_std_as_url (input : jsstring) :
  forallb is_url_or_std_char input = true -> (length input mod 4 <> 1)%nat ->
  url_safe (map to_url_char input)
  /\ exists bytes, decode input = Ok bytes /\ decode (map to_url_char input) = Ok bytes.
Proof.
  intros Hall Hlen.
  destruct (url_or_std_strings input Hall) as (Hchars & Hsame & Hsafe).
  split; [exact Hsafe|].
  eexists. split.
  - now apply decode_value.
  - rewrite decode_value.
    + now rewrite Hsame.
    + now rewrite Hsame.
    + now rewrite length_map.
Qed.

(** C8 as the code has it. [decode] checks nothing itself; [atob] decides.
    A string with a character that is in neither alphabet, is not [=] and
    is not ASCII whitespace makes [decode] throw. A string of characters of
    the two alphabets, of a length other than 1 modulo 4, is decoded with
    its [+] and [/] read as [-] and [_]. *)
Theorem decode_outside_alphabet :
  (forall input : jsstring,
     existsb is_foreign_char input = true ->
     decode input = Throw InvalidCharacterError)
  /\ (forall input : jsstring,
        forallb is_url_or_std_char input = true -> (length input mod 4 <> 1)%nat ->
        url_safe (map to_url_char input)
        /\ exists bytes,
             decode input = Ok bytes /\ decode (map to_url_char input) = Ok bytes).
Proof.
  split; [exact decode_foreign | exact decode_std_as_url].
Qed.

Lemma decode_outside_alphabet_witness :
  (existsb is_foreign_char (lit "SGVs*G8h") = true
   /\ decode (lit "SGVs*G8h") = Throw InvalidCharacterError)
  /\ (forallb is_url_or_std_char (lit "a+b/") = true
      /\ (length (lit "a+b/") mod 4 <> 1)%nat
      /\ exists bytes, decode (lit "a+b/") = Ok bytes /\ decode (lit "a-b_") = Ok bytes).
Proof.
  assert (H1 : existsb is_foreign_char (lit "SGVs*G8h") = true) by (vm_compute; reflexivity).
  assert (H2 : forallb is_url_or_std_char (lit "a+b/") = true) by (vm_compute; reflexivity).
  assert (H3 : (length (lit "a+b/") mod 4 <> 1)%nat) by (vm_compute; discriminate).
  split.
  - split; [exact H1|]. exact (proj1 decode_outside_alphabet (lit "SGVs*G8h") H1).
  - split; [exact H2|]. split; [exact H3|].
    exact (proj2 (proj2 decode_outside_alphabet (lit "a+b/") H2 H3)).
Defined.

(** C8 as the specification has it fails: this string has a character
    outside the URL-safe alphabet and [decode] throws on it. *)
Lemma decode_rejects_foreign_char :
  ~ url_safe (lit "SGVs*G8h")
  /\ decode (lit "SGVs*G8h") = Throw InvalidCharacterError
  /\ ~ (forall input : jsstring,
          ~ url_safe input -> exists bytes, decode input = Ok bytes).
Proof.
  assert (Hu : ~ url_safe (lit "SGVs*G8h")) by (vm_compute; discriminate).
  assert (Hd : decode (lit "SGVs*G8h") = Throw InvalidCharacterError)
    by (vm_compute; reflexivity).
  split; [exact Hu|]. split; [exact Hd|].
  intros H. destruct (H _ Hu) as (bytes & Hb). rewrite Hd in Hb. discriminate.
Qed.

(** ** UTF-8 *)


Lemma lor_128 (x : N) : x < 64 -> N.lor 128 x = 128 + x.
Proof. intros Hx. change 128 with (2 * 2 ^ 6). now apply lor_add. Qed.

Lemma utf8_lead_1 (b : N) : b <= 0x7F -> Text.utf8_lead b = (Text.utf8_init, [b]).
Proof.
  intros Hb. unfold Text.utf8_lead, Text.in_range.
  destruct (N.leb_spec 0 b); [|lia]. destruct (N.leb_spec b 0x7F); [|lia]. reflexivity.
Qed.

Lemma utf8_lead_2 (b : N) :
  0xC2 <= b <= 0xDF ->
  Text.utf8_lead b = (Text.mk_utf8_state (N.land b 0x1F) 0 1 0x80 0xBF, []).
Proof.
  intros Hb. unfold Text.utf8_lead, Text.in_range.
  destruct (N.leb_spec b 0x7F); [lia|]. rewrite andb_false_r.
  destruct (N.leb_spec 0xC2 b); [|lia]. destruct (N.leb_spec b 0xDF); [|lia]. reflexivity.
Qed.

Lemma utf8_lead_3 (b : N) :
  0xE0 <= b <= 0xEF ->
  Text.utf8_lead b
  = (Text.mk_utf8_state (N.land b 0xF) 0 2
       (if N.eqb b 0xE0 then 0xA0 else 0x80) (if N.eqb b 0xED then 0x9F else 0xBF), []).
Proof.
  intros Hb. unfold Text.utf8_lead, Text.in_range.
  destruct (N.leb_spec b 0x7F); [lia|]. rewrite andb_false_r.
  destruct (N.leb_spec b 0xDF); [lia|]. rewrite andb_false_r.
  destruct (N.leb_spec 0xE0 b); [|lia]. destruct (N.leb_spec b 0xEF); [|lia]. reflexivity.
Qed.

Lemma utf8_lead_4 (b : N) :
  0xF0 <= b <= 0xF4 ->
  Text.utf8_lead b
  = (Text.mk_utf8_state (N.land b 0x7) 0 3
       (if N.eqb b 0xF0 then 0x90 else 0x80) (if N.eqb b 0xF4 then 0x8F else 0xBF), []).
Proof.
  intros Hb. unfold Text.utf8_lead, Text.in_range.
  destruct (N.leb_spec b 0x7F); [lia|]. rewrite andb_false_r.
  destruct (N.leb_spec b 0xDF); [lia|]. rewrite andb_false_r.
  destruct (N.leb_spec b 0xEF); [lia|]. rewrite andb_false_r.
  destruct (N.leb_spec 0xF0 b); [|lia]. destruct (N.leb_spec b 0xF4); [|lia]. reflexivity.
Qed.

(** A continuation byte in the awaited range. *)
Lemma utf8_handler_cont (cp seen needed lo hi b : N) :
  needed <> 0 -> lo <= b <= hi ->
  Text.utf8_handler (Text.mk_utf8_state cp seen needed lo hi) b
  = if N.eqb (seen + 1) needed
    then (Text.utf8_init, [N.lor (N.shiftl cp 6) (N.land b 0x3F)])
    else (Text.mk_utf8_state (N.lor (N.shiftl cp 6) (N.land b 0x3F)) (seen + 1) needed
            0x80 0xBF, []).
Proof.
  intros Hn Hb. unfold Text.utf8_handler, Text.in_range.
  cbn [Text.bytes_needed Text.lower_boundary Text.upper_boundary Text.code_point Text.bytes_seen].
  destruct (N.eqb_spec needed 0); [contradiction|].
  destruct (N.leb_spec lo b); [|lia]. destruct (N.leb_spec b hi); [|lia].
  cbn [andb negb]. now destruct (N.eqb (seen + 1) needed).
Qed.

(** A continuation byte [128 + x] adds the six bits [x]. *)
Lemma cont_bits (acc x : N) :
  x < 64 -> N.lor (N.shiftl acc 6) (N.land (N.lor 128 x) 0x3F) = acc * 64 + x.
Proof.
  intros Hx. rewrite lor_128 by assumption.
  rewrite land_63, (shiftl_mul acc 6 64) by reflexivity.
  replace ((128 + x) mod 64) with x.
  - now apply lor_sextets2.
  - symmetry. replace (128 + x) with (2 * 64 + x) by lia. now apply mod_mul_add.
Qed.

Lemma utf8_handler_mid (acc seen needed lo hi x : N) :
  needed <> 0 -> x < 64 -> lo <= 128 + x <= hi -> seen + 1 <> needed ->
  Text.utf8_handler (Text.mk_utf8_state acc seen needed lo hi) (N.lor 128 x)
  = (Text.mk_utf8_state (acc * 64 + x) (seen + 1) needed 0x80 0xBF, []).
Proof.
  intros Hn Hx Hb Hs. rewrite utf8_handler_cont by (rewrite ?lor_128; assumption).
  destruct (N.eqb_spec (seen + 1) needed); [contradiction|].
  now rewrite cont_bits.
Qed.

Lemma utf8_handler_last (acc seen needed lo hi x : N) :
  needed <> 0 -> x < 64 -> lo <= 128 + x <= hi -> seen + 1 = needed ->
  Text.utf8_handler (Text.mk_utf8_state acc seen needed lo hi) (N.lor 128 x)
  = (Text.utf8_init, [acc * 64 + x]).
Proof.
  intros Hn Hx Hb Hs. rewrite utf8_handler_cont by (rewrite ?lor_128; assumption).
  destruct (N.eqb_spec (seen + 1) needed); [|contradiction].
  now rewrite cont_bits.
Qed.

Lemma land_31 (x : N) : N.land x 0x1F = x mod 32.
Proof. change 0x1F with (N.ones 5). now rewrite N.land_ones. Qed.

Lemma land_15 (x : N) : N.land x 0xF = x mod 16.
Proof. change 0xF with (N.ones 4). now rewrite N.land_ones. Qed.

Lemma land_7 (x : N) : N.land x 0x7 = x mod 8.
Proof. change 0x7 with (N.ones 3). now rewrite N.land_ones. Qed.

Lemma land_1023 (x : N) : N.land x 0x3FF = x mod 1024.
Proof. change 0x3FF with (N.ones 10). now rewrite N.land_ones. Qed.

(** The base-64 digits of a code point. *)
Lemma digits_64 (cp : N) :
  exists q1 q2 q3 d0 d1 d2 : N,
    (cp / 64 = q1 /\ cp / 4096 = q2 /\ cp / 262144 = q3)
    /\ (cp mod 64 = d0 /\ (cp / 64) mod 64 = d1 /\ (cp / 4096) mod 64 = d2)
    /\ (cp = q1 * 64 + d0 /\ q1 = q2 * 64 + d1 /\ q2 = q3 * 64 + d2)
    /\ (d0 < 64 /\ d1 < 64 /\ d2 < 64).
Proof.
  pose proof (N.div_mod' cp 64) as E1.
  pose proof (N.div_mod' (cp / 64) 64) as E2.
  pose proof (N.div_mod' (cp / 4096) 64) as E3.
  replace (cp / 64 / 64) with (cp / 4096) in E2 by (rewrite N.Div0.div_div; reflexivity).
  replace (cp / 4096 / 64) with (cp / 262144) in E3 by (rewrite N.Div0.div_div; reflexivity).
  exists (cp / 64), (cp / 4096), (cp / 262144),
         (cp mod 64), ((cp / 64) mod 64), ((cp / 4096) mod 64).
  repeat split; try lia; now apply N.mod_lt.
Qed.

(** Names the digits of [cp] in the goal, so that what is left is linear. *)
Ltac name_digits cp :=
  destruct (digits_64 cp) as
    (?q1 & ?q2 & ?q3 & ?d0 & ?d1 & ?d2
     & (?Q1 & ?Q2 & ?Q3) & (?D0 & ?D1 & ?D2) & (?E0 & ?E1 & ?E2) & (?L0 & ?L1 & ?L2));
  rewrite ?(shiftr_div cp 6 64), ?(shiftr_div cp 12 4096), ?(shiftr_div cp 18 262144),
          ?land_63 by reflexivity;
  rewrite ?D0, ?D1, ?D2; rewrite ?Q1, ?Q2, ?Q3.

Lemma utf8_run_cons (st : Text.utf8_state) (b : N) (rest : list N) :
  Text.utf8_run st (b :: rest)
  = (let (st', out) := Text.utf8_handler st b in out ++ Text.utf8_run st' rest).
Proof. reflexivity. Qed.

Lemma utf8_handler_init (b : N) : Text.utf8_handler Text.utf8_init b = Text.utf8_lead b.
Proof. reflexivity. Qed.

Section EncodeOneCodePoint.

Variable cp : N.
Variable rest : list N.

Lemma utf8_run_1 :
  cp <= 0x7F ->
  Text.utf8_run Text.utf8_init (Text.utf8_encode_cp cp ++ rest)
  = cp :: Text.utf8_run Text.utf8_init rest.
Proof.
  intros H. unfold Text.utf8_encode_cp.
  destruct (N.leb_spec cp 0x7F); [|lia].
  cbn [app]. now rewrite utf8_run_cons, utf8_handler_init, utf8_lead_1.
Qed.

Lemma utf8_run_2 :
  0x80 <= cp <= 0x7FF ->
  Text.utf8_run Text.utf8_init (Text.utf8_encode_cp cp ++ rest)
  = cp :: Text.utf8_run Text.utf8_init rest.
Proof.
  intros H. unfold Text.utf8_encode_cp.
  destruct (N.leb_spec cp 0x7F); [lia|]. destruct (N.leb_spec cp 0x7FF); [|lia].
  name_digits cp.
  cbn [app]. rewrite utf8_run_cons, utf8_handler_init, utf8_lead_2 by lia.
  rewrite land_31. replace (q1 + 0xC0) with (6 * 32 + q1) by lia.
  rewrite mod_mul_add by lia.
  rewrite utf8_run_cons, utf8_handler_last by (try reflexivity; lia).
  cbn [app]. now rewrite <- E0.
Qed.

Lemma utf8_run_3 :
  0x800 <= cp <= 0xFFFF -> is_scalar cp = true ->
  Text.utf8_run Text.utf8_init (Text.utf8_encode_cp cp ++ rest)
  = cp :: Text.utf8_run Text.utf8_init rest.
Proof.
  intros H Hs. unfold Text.utf8_encode_cp.
  destruct (N.leb_spec cp 0x7F); [lia|]. destruct (N.leb_spec cp 0x7FF); [lia|].
  destruct (N.leb_spec cp 0xFFFF); [|lia].
  assert (Hsur : cp < 0xD800 \/ 0xE000 <= cp).
  { unfold is_scalar in Hs. apply orb_prop in Hs. destruct Hs as [Hs|Hs].
    - left. now apply N.ltb_lt.
    - right. apply andb_prop in Hs. now apply N.leb_le. }
  name_digits cp.
  cbn [app]. rewrite utf8_run_cons, utf8_handler_init, utf8_lead_3 by lia.
  rewrite land_15. replace (q2 + 0xE0) with (14 * 16 + q2) by lia.
  rewrite mod_mul_add by lia.
  rewrite utf8_run_cons, utf8_handler_mid;
    [ | discriminate | assumption
      | destruct (N.eqb_spec (14 * 16 + q2) 0xE0);
        destruct (N.eqb_spec (14 * 16 + q2) 0xED); lia
      | discriminate ].
  rewrite utf8_run_cons, utf8_handler_last by (try reflexivity; lia).
  cbn [app]. f_equal. lia.
Qed.

Lemma utf8_run_4 :
  0x10000 <= cp <= 0x10FFFF ->
  Text.utf8_run Text.utf8_init (Text.utf8_encode_cp cp ++ rest)
  = cp :: Text.utf8_run Text.utf8_init rest.
Proof.
  intros H. unfold Text.utf8_encode_cp.
  destruct (N.leb_spec cp 0x7F); [lia|]. destruct (N.leb_spec cp 0x7FF); [lia|].
  destruct (N.leb_spec cp 0xFFFF); [lia|].
  name_digits cp.
  cbn [app]. rewrite utf8_run_cons, utf8_handler_init, utf8_lead_4 by lia.
  rewrite land_7. replace (q3 + 0xF0) with (30 * 8 + q3) by lia.
  rewrite mod_mul_add by lia.
  rewrite utf8_run_cons, utf8_handler_mid;
    [ | discriminate | assumption
      | destruct (N.eqb_spec (30 * 8 + q3) 0xF0);
        destruct (N.eqb_spec (30 * 8 + q3) 0xF4); lia
      | discriminate ].
  rewrite utf8_run_cons, utf8_handler_mid by (try discriminate; lia).
  rewrite utf8_run_cons, utf8_handler_last by (try reflexivity; lia).
  cbn [app]. f_equal. lia.
Qed.

End EncodeOneCodePoint.

Lemma is_scalar_cases (cp : N) :
  is_scalar cp = true -> cp <= 0x10FFFF /\ (cp < 0xD800 \/ 0xE000 <= cp).
Proof.
  unfold is_scalar. intros H. apply orb_prop in H. destruct H as [H|H].
  - apply N.ltb_lt in H. lia.
  - apply andb_prop in H. destruct H as [H1 H2].
    apply N.leb_le in H1, H2. lia.
Qed.

Lemma utf8_run_encode_cp (cp : N) (rest : list N) :
  is_scalar cp = true ->
  Text.utf8_run Text.utf8_init (Text.utf8_encode_cp cp ++ rest)
  = cp :: Text.utf8_run Text.utf8_init rest.
Proof.
  intros Hs. destruct (is_scalar_cases cp Hs) as [Hmax _].
  destruct (N.le_gt_cases cp 0x7F); [now apply utf8_run_1|].
  destruct (N.le_gt_cases cp 0x7FF); [apply utf8_run_2; lia|].
  destruct (N.le_gt_cases cp 0xFFFF); [apply utf8_run_3; [lia | assumption]|].
  apply utf8_run_4; lia.
Qed.

Lemma utf8_run_encode (cps : list N) :
  scalars cps -> Text.utf8_run Text.utf8_init (flat_map Text.utf8_encode_cp cps) = cps.
Proof.
  induction 1 as [|cp cps Hcp _ IH]; [reflexivity|].
  cbn [flat_map]. now rewrite utf8_run_encode_cp, IH.
Qed.

Lemma utf8_encode_cp_bytes (cp : N) :
  cp <= 0x10FFFF -> Forall (fun b => b < 256) (Text.utf8_encode_cp cp).
Proof.
  intros Hmax. unfold Text.utf8_encode_cp.
  name_digits cp.
  destruct (N.leb_spec cp 0x7F); [|destruct (N.leb_spec cp 0x7FF);
    [|destruct (N.leb_spec cp 0xFFFF)]];
    rewrite ?lor_128 by assumption;
    repeat constructor; lia.
Qed.

Lemma to_N_ToUint8 (x : N) : x < 256 -> Byte.to_N (ToUint8 x) = x.
Proof.
  intros Hx. unfold ToUint8. rewrite land_255, N.mod_small by assumption.
  destruct (Byte.of_N x) as [b|] eqn:E.
  - now apply Byte.to_of_N.
  - apply Byte.of_N_None_iff in E. lia.
Qed.

Lemma map_to_N_ToUint8 (l : list N) :
  Forall (fun b => b < 256) l -> map Byte.to_N (map ToUint8 l) = l.
Proof.
  induction 1 as [|x l Hx _ IH]; simpl; [reflexivity|].
  now rewrite to_N_ToUint8, IH.
Qed.

Lemma utf8_decode_encode (cps : list N) :
  scalars cps ->
  Text.utf8_decode (map ToUint8 (flat_map Text.utf8_encode_cp cps)) = cps.
Proof.
  intros Hs. unfold Text.utf8_decode. rewrite map_to_N_ToUint8.
  - now apply utf8_run_encode.
  - clear -Hs. induction Hs as [|cp cps Hcp _ IH]; [constructor|].
    cbn [flat_map]. apply Forall_app. split; [|exact IH].
    apply utf8_encode_cp_bytes. now apply is_scalar_cases.
Qed.

(** ** UTF-16 *)

Lemma list_ind2 {A : Type} (P : list A -> Prop) :
  P [] -> (forall a, P [a]) -> (forall a b l, P l -> P (b :: l) -> P (a :: b :: l)) ->
  forall l, P l.
Proof.
  intros H0 H1 H2 l.
  enough (H : P l /\ forall a, P (a :: l)) by apply H.
  induction l as [|x l (IH0 & IH1)].
  - auto.
  - split; auto.
Qed.

Lemma surrogate_pair_units (c d : N) :
  Text.is_lead_surrogate c = true -> Text.is_trail_surrogate d = true ->
  let cp := 0x10000 + N.shiftl (c - 0xD800) 10 + (d - 0xDC00) in
  is_scalar cp = true /\ cp <> 0xFEFF /\ Text.utf16_units cp = [c; d].
Proof.
  unfold Text.is_lead_surrogate, Text.is_trail_surrogate. intros Hc Hd.
  apply andb_prop in Hc, Hd. destruct Hc as [Hc1 Hc2], Hd as [Hd1 Hd2].
  apply N.leb_le in Hc1, Hc2, Hd1, Hd2.
  rewrite (shiftl_mul (c - 0xD800) 10 1024) by reflexivity.
  cbv zeta. repeat split.
  - unfold is_scalar. apply orb_true_iff. right.
    apply andb_true_iff. split; apply N.leb_le; lia.
  - lia.
  - unfold Text.utf16_units.
    destruct (N.leb_spec (0x10000 + (c - 0xD800) * 1024 + (d - 0xDC00)) 0xFFFF); [lia|].
    replace (0x10000 + (c - 0xD800) * 1024 + (d - 0xDC00) - 0x10000)
      with ((c - 0xD800) * 1024 + (d - 0xDC00)) by lia.
    rewrite (shiftr_div _ 10 1024), land_1023 by reflexivity.
    rewrite div_mul_add, mod_mul_add by lia.
    f_equal; [lia | f_equal; lia].
Qed.

Lemma plain_unit (c : N) :
  Text.is_lead_surrogate c = false -> Text.is_trail_surrogate c = false -> c <= 0xFFFF ->
  is_scalar c = true /\ Text.utf16_units c = [c].
Proof.
  unfold Text.is_lead_surrogate, Text.is_trail_surrogate, is_scalar, Text.utf16_units.
  intros Hl Ht Hc.
  destruct (N.leb_spec c 0xFFFF); [|lia]. split; [|reflexivity].
  apply andb_false_iff in Hl, Ht.
  rewrite !N.leb_gt in Hl, Ht.
  apply orb_true_iff.
  destruct (N.lt_ge_cases c 0xD800); [left; now apply N.ltb_lt|].
  right. apply andb_true_iff. split; apply N.leb_le; lia.
Qed.

Lemma to_scalars_plain (c : N) (rest : jsstring) :
  Text.is_lead_surrogate c = false -> Text.is_trail_surrogate c = false ->
  Text.to_scalars (c :: rest) = c :: Text.to_scalars rest.
Proof. intros Hl Ht. cbn [Text.to_scalars]. now rewrite Hl, Ht. Qed.

Lemma to_scalars_pair (c d : N) (rest : jsstring) :
  Text.is_lead_surrogate c = true -> Text.is_trail_surrogate d = true ->
  Text.to_scalars (c :: d :: rest)
  = (0x10000 + N.shiftl (c - 0xD800) 10 + (d - 0xDC00)) :: Text.to_scalars rest.
Proof. intros Hl Ht. cbn [Text.to_scalars]. now rewrite Hl, Ht. Qed.

Lemma well_formed_plain (c : N) (rest : jsstring) :
  well_formed (c :: rest) = true -> Text.is_lead_surrogate c = false ->
  Text.is_trail_surrogate c = false /\ c <= 0xFFFF /\ well_formed rest = true.
Proof.
  cbn [well_formed]. intros Hwf El. rewrite El in Hwf.
  apply andb_prop in Hwf. destruct Hwf as [Hwf Hrest].
  apply andb_prop in Hwf. destruct Hwf as [Ht Hc].
  apply negb_true_iff in Ht. apply N.leb_le in Hc. now repeat split.
Qed.

Lemma well_formed_pair (c : N) (rest : jsstring) :
  well_formed (c :: rest) = true -> Text.is_lead_surrogate c = true ->
  exists d rest', rest = d :: rest' /\ Text.is_trail_surrogate d = true
                  /\ well_formed rest' = true.
Proof.
  cbn [well_formed]. intros Hwf El. rewrite El in Hwf.
  destruct rest as [|d rest']; [discriminate|].
  apply andb_prop in Hwf. destruct Hwf as [Ht Hrest].
  exists d, rest'. now repeat split.
Qed.

Lemma to_scalars_well_formed (s : jsstring) :
  well_formed s = true ->
  scalars (Text.to_scalars s) /\ flat_map Text.utf16_units (Text.to_scalars s) = s.
Proof.
  unfold scalars.
  induction s as [|c|c d s IH0 IH1] using list_ind2; intros Hwf.
  - split; [constructor | reflexivity].
  - destruct (Text.is_lead_surrogate c) eqn:El.
    + destruct (well_formed_pair c [] Hwf El) as (? & ? & [=] & _).
    + destruct (well_formed_plain c [] Hwf El) as (Ht & Hc & _).
      rewrite to_scalars_plain by assumption.
      destruct (plain_unit c El Ht Hc) as [Hs Hu].
      split; [now repeat constructor|]. cbn [flat_map Text.to_scalars]. now rewrite Hu.
  - destruct (Text.is_lead_surrogate c) eqn:El.
    + destruct (well_formed_pair c (d :: s) Hwf El) as (d' & s' & [= <- <-] & Ht & Hrest).
      rewrite to_scalars_pair by assumption.
      destruct (surrogate_pair_units c d El Ht) as (Hs & _ & Hu).
      destruct (IH0 Hrest) as [IHs IHu].
      split; [now constructor|]. cbn [flat_map]. now rewrite Hu, IHu.
    + destruct (well_formed_plain c (d :: s) Hwf El) as (Ht & Hc & Hrest).
      rewrite to_scalars_plain by assumption.
      destruct (plain_unit c El Ht Hc) as [Hs Hu].
      destruct (IH1 Hrest) as [IHs IHu].
      split; [now constructor|]. cbn [flat_map]. now rewrite Hu, IHu.
Qed.

Lemma strip_bom_no_bom (s : jsstring) :
  well_formed s = true -> no_bom s = true ->
  Text.strip_bom (Text.to_scalars s) = Text.to_scalars s.
Proof.
  destruct s as [|c rest]; [reflexivity|].
  intros Hwf Hbom. cbn [no_bom] in Hbom. apply negb_true_iff in Hbom.
  destruct (Text.is_lead_surrogate c) eqn:El.
  - destruct (well_formed_pair c rest Hwf El) as (d & rest' & -> & Ht & _).
    rewrite to_scalars_pair by assumption.
    destruct (surrogate_pair_units c d El Ht) as (_ & Hne & _).
    unfold Text.strip_bom. apply N.eqb_neq in Hne. now rewrite Hne.
  - destruct (well_formed_plain c rest Hwf El) as (Ht & _ & _).
    rewrite to_scalars_plain by assumption.
    unfold Text.strip_bom. now rewrite Hbom.
Qed.

(** The text codecs undo each other on a well-formed string with no byte
    order mark in front. *)
Lemma TextDecoder_TextEncoder (s : jsstring) :
  well_formed s = true -> no_bom s = true ->
  Text.TextDecoder_decode (Text.TextEncoder_encode s) = s.
Proof.
  intros Hwf Hbom. unfold Text.TextDecoder_decode, Text.TextEncoder_encode.
  destruct (to_scalars_well_formed s Hwf) as [Hs Hu].
  now rewrite utf8_decode_encode, strip_bom_no_bom.
Qed.

(** * Strings *)

(** C6 as the code has it. [decodeToString] is [decode] followed by the
    host's UTF-8 decoder, which is made with its defaults. For every
    well-formed string that does not begin with U+FEFF, [encode] returns a
    string whose [decodeToString] is the string again. *)
Theorem decodeToString_encode :
  (forall input : jsstring,
     decodeToString input
     = (bytes <- decode input ;; Ok (Text.TextDecoder_decode bytes))%js)
  /\ (forall s : jsstring,
        well_formed s = true -> no_bom s = true ->
        exists e, encode (Str s) = Ok e /\ decodeToString e = Ok s).
Proof.
  split; [reflexivity|].
  intros s Hwf Hbom.
  exists (map url_char (sextets_of_bytes (map Byte.to_N (Text.TextEncoder_encode s)))).
  split.
  - rewrite encode_str_bytes. apply encode_bytes_value.
  - unfold decodeToString. rewrite decode_encoded_bytes. cbn [bind].
    now rewrite TextDecoder_TextEncoder.
Qed.

Lemma decodeToString_encode_witness :
  well_formed (lit "Hello, World!") = true /\ no_bom (lit "Hello, World!") = true
  /\ exists e, encode (Str (lit "Hello, World!")) = Ok e
               /\ decodeToString e = Ok (lit "Hello, World!").
Proof.
  assert (H1 : well_formed (lit "Hello, World!") = true) by (vm_compute; reflexivity).
  assert (H2 : no_bom (lit "Hello, World!") = true) by (vm_compute; reflexivity).
  split; [exact H1|]. split; [exact H2|].
  exact (proj2 decodeToString_encode (lit "Hello, World!") H1 H2).
Defined.

(** C6 as the specification has it fails: the string made of U+FEFF alone
    is well-formed, its encoding is ["77u_"], and [decodeToString] returns
    the empty string for it. *)
Lemma decodeToString_drops_bom :
  well_formed [0xFEFF] = true
  /\ encode (Str [0xFEFF]) = Ok (lit "77u_")
  /\ decodeToString (lit "77u_") = Ok []
  /\ ~ (exists e, encode (Str [0xFEFF]) = Ok e /\ decodeToString e = Ok [0xFEFF]).
Proof.
  assert (He : encode (Str [0xFEFF]) = Ok (lit "77u_")) by (vm_compute; reflexivity).
  assert (Hd : decodeToString (lit "77u_") = Ok []) by (vm_compute; reflexivity).
  split; [reflexivity|]. split; [exact He|]. split; [exact Hd|].
  intros (e & He' & Hd'). rewrite He in He'. injection He' as <-.
  rewrite Hd in Hd'. discriminate.
Qed.

Example lone_surrogate_replaced :
  encode (Str [0xD800]) = Ok (lit "77-9")
  /\ decodeToString (lit "77-9") = Ok [0xFFFD].
Proof. split; vm_compute; reflexivity. Qed.

Example surrogate_pair_kept :
  (e <- encode (Str [0xD83D; 0xDE00; 0xE9; 0x4E2D]) ;; decodeToString e)%js
  = Ok [0xD83D; 0xDE00; 0xE9; 0x4E2D].
Proof. vm_compute. reflexivity. Qed.

(** * JSON *)

Example encodeJSON_jwt_header :
  encodeJSON MiniJSON.jwt_header = Ok (lit "eyJhbGciOiJIUzI1NiIsInR5cCI6IkpXVCJ9").
Proof. vm_compute. reflexivity. Qed.

Example decodeJSON_jwt_header :
  decodeJSON (lit "eyJhbGciOiJIUzI1NiIsInR5cCI6IkpXVCJ9") = Ok MiniJSON.jwt_header.
Proof. vm_compute. reflexivity. Qed.

Example parse_nested :
  MiniJSON.parse (MiniJSON.qlit "{ 'a' : [ true, null, {} , 'x\ny' ], 'b':{'c':[]} } ")
  = Ok (MiniJSON.JObject
          [(lit "a", MiniJSON.JArray [MiniJSON.JBool true; MiniJSON.JNull;
                                      MiniJSON.JObject []; MiniJSON.JString [120; 10; 121]]);
           (lit "b", MiniJSON.JObject [(lit "c", MiniJSON.JArray [])])]).
Proof. vm_compute. reflexivity. Qed.

Example serialize_escapes :
  MiniJSON.serialize (MiniJSON.JArray [MiniJSON.JString [0xD800; 10; 1; 34; 0xD83D; 0xDE00]])
  = MiniJSON.qlit "['\ud800\n\u0001\'" ++ [0xD83D; 0xDE00] ++ MiniJSON.qlit "']".
Proof. vm_compute. reflexivity. Qed.

(** C7. JSON round trip, for any host [JSON]. [encodeJSON] is
    [JSON.stringify] followed by [encode], [decodeJSON] is [decodeToString]
    followed by [JSON.parse]. A value counts as JSON-serializable when
    [JSON.stringify] gives a text for it that [JSON.parse] turns back into
    it; that text, like every text [JSON.stringify] returns, is well-formed
    and does not begin with U+FEFF. For such a value [encodeJSON] returns a
    string and [decodeJSON] of that string returns the value. *)
Theorem decodeJSON_encodeJSON {value : Type} {H : JSONHost value}
    (v : value) (text : jsstring) :
  JSON_stringify v = Ok (Some text) ->
  well_formed text = true -> no_bom text = true ->
  JSON_parse text = Ok v ->
  encodeJSON v = (t <- JSON_stringify v ;;
                  encode (match t with Some s => Str s | None => Undefined end))%js
  /\ (forall input, decodeJSON input = (t <- decodeToString input ;; JSON_parse t)%js)
  /\ exists e, encodeJSON v = Ok e /\ decodeJSON e = Ok v.
Proof.
  intros Hs Hwf Hbom Hp. split; [reflexivity|]. split; [reflexivity|].
  exists (map url_char (sextets_of_bytes (map Byte.to_N (Text.TextEncoder_encode text)))).
  unfold encodeJSON, decodeJSON, decodeToString.
  rewrite Hs. cbn [bind]. split.
  - rewrite encode_str_bytes. apply encode_bytes_value.
  - rewrite decode_encoded_bytes. cbn [bind]. now rewrite TextDecoder_TextEncoder.
Qed.

Lemma decodeJSON_encodeJSON_witness :
  JSON_stringify MiniJSON.jwt_header = Ok (Some (MiniJSON.qlit "{'alg':'HS256','typ':'JWT'}"))
  /\ JSON_parse (MiniJSON.qlit "{'alg':'HS256','typ':'JWT'}") = Ok MiniJSON.jwt_header
  /\ exists e, encodeJSON MiniJSON.jwt_header = Ok e /\ decodeJSON e = Ok MiniJSON.jwt_header.
Proof.
  assert (Hs : JSON_stringify MiniJSON.jwt_header
               = Ok (Some (MiniJSON.qlit "{'alg':'HS256','typ':'JWT'}")))
    by (vm_compute; reflexivity).
  assert (Hp : JSON_parse (MiniJSON.qlit "{'alg':'HS256','typ':'JWT'}") = Ok MiniJSON.jwt_header)
    by (vm_compute; reflexivity).
  split; [exact Hs|]. split; [exact Hp|].
  refine (proj2 (proj2 (decodeJSON_encodeJSON MiniJSON.jwt_header _ Hs _ _ Hp)));
    vm_compute; reflexivity.
Defined.

Example encodeJSON_undefined {value : Type} {H : JSONHost value} (v : value) :
  JSON_stringify v = Ok None -> encodeJSON v = Throw TypeError.
Proof. intros Hs. unfold encodeJSON. now rewrite Hs. Qed.

(** * The [Buffer.from] shim *)

Lemma jsstring_eqb_eq (a b : jsstring) : jsstring_eqb a b = true <-> a = b.
Proof.
  revert b. induction a as [|x a IH]; intros [|y b]; cbn [jsstring_eqb];
    try (split; [discriminate | discriminate]); [now split|].
  rewrite andb_true_iff, N.eqb_eq, IH. split.
  - now intros [-> ->].
  - now intros [= -> ->].
Qed.

Section Shim.

Context {number Buffer : Type} {host : BufferHost number Buffer}.

Lemma from_base64url_string (s : jsstring) (length : option number) :
  Buffer_from (VString s) (EString (lit "base64url")) length
  = (decoded <- decode s ;; originalFrom (VUint8Array decoded) EUndefined None)%js.
Proof. reflexivity. Qed.

Lemma from_base64url_other (value : from_value) (length : option number) :
  (forall s, value <> VString s) ->
  Buffer_from value (EString (lit "base64url")) length = Throw TypeError.
Proof.
  intros Hv. destruct value as [s| |]; [now destruct (Hv s) | reflexivity | reflexivity].
Qed.

Lemma from_other_encoding (value : from_value) (enc : jsstring) (length : option number) :
  enc <> lit "base64url" ->
  Buffer_from value (EString enc) length = originalFrom value (EString enc) None.
Proof.
  intros Henc. unfold Buffer_from. cbn [Buffer_from_fuel is_base64url].
  destruct (jsstring_eqb enc (lit "base64url")) eqn:E; [|reflexivity].
  apply jsstring_eqb_eq in E. contradiction.
Qed.

Lemma from_number (value : from_value) (offset : number) (length : option number) :
  Buffer_from value (ENumber offset) length = originalFrom value (ENumber offset) length.
Proof. reflexivity. Qed.

Lemma from_no_encoding (value : from_value) (length : option number) :
  Buffer_from value EUndefined length = originalFrom value EUndefined None.
Proof. reflexivity. Qed.

End Shim.

(** C9 as the code has it. With the encoding name ["base64url"] the factory
    throws a type error for a value that is not a string, and for a string
    hands [decode] of it to the host's original factory. With any other
    encoding name it calls the original factory with the value and the
    name, and with no third argument. With a numeric offset it calls the
    original factory with the value, the offset and the length. *)
Theorem Buffer_from_delegation {number Buffer : Type} {host : BufferHost number Buffer} :
  (forall value length,
     (forall s, value <> VString s) ->
     Buffer_from value (EString (lit "base64url")) length = Throw TypeError)
  /\ (forall s length,
        Buffer_from (VString s) (EString (lit "base64url")) length
        = (decoded <- decode s ;; originalFrom (VUint8Array decoded) EUndefined None)%js)
  /\ (forall value enc length,
        enc <> lit "base64url" ->
        Buffer_from value (EString enc) length = originalFrom value (EString enc) None)
  /\ (forall value offset length,
        Buffer_from value (ENumber offset) length = originalFrom value (ENumber offset) length).
Proof.
  split; [exact from_base64url_other|]. split; [exact from_base64url_string|].
  split; [exact from_other_encoding | exact from_number].
Qed.

Lemma Buffer_from_delegation_witness :
  @Buffer_from _ _ recording_host (VUint8Array [x01]) (EString (lit "base64url")) None
  = Throw TypeError
  /\ @Buffer_from _ _ recording_host (VString (lit "AQ")) (EString (lit "base64url")) None
     = Ok (VUint8Array [x01], EUndefined, None)
  /\ @Buffer_from _ _ recording_host (VString (lit "AQ")) (EString (lit "hex")) None
     = Ok (VString (lit "AQ"), EString (lit "hex"), None)
  /\ @Buffer_from _ _ recording_host (VArrayBuffer [x01; x02]) (ENumber 1%N) (Some 1%N)
     = Ok (VArrayBuffer [x01; x02], ENumber 1%N, Some 1%N).
Proof.
  destruct (@Buffer_from_delegation _ _ recording_host) as (H1 & H2 & H3 & H4).
  split; [apply H1; discriminate|].
  split; [rewrite H2; vm_compute; reflexivity|].
  split; [rewrite H3; [reflexivity | vm_compute; discriminate]|].
  now rewrite H4.
Defined.

(** C9 as the specification has it fails: with the encoding name ["utf8"]
    and a length, the original factory is not called with the arguments of
    the call, the length is left out. *)
Lemma Buffer_from_drops_length :
  @originalFrom _ _ recording_host (VArrayBuffer [x01; x02; x03]) (EString (lit "utf8")) (Some 2%N)
  = Ok (VArrayBuffer [x01; x02; x03], EString (lit "utf8"), Some 2%N)
  /\ @Buffer_from _ _ recording_host (VArrayBuffer [x01; x02; x03]) (EString (lit "utf8")) (Some 2%N)
     = Ok (VArrayBuffer [x01; x02; x03], EString (lit "utf8"), None)
  /\ ~ (forall (number Buffer : Type) (host : BufferHost number Buffer)
               (value : from_value) (enc : jsstring) (length : option number),
          enc <> lit "base64url" ->
          Buffer_from value (EString enc) length = originalFrom value (EString enc) length).
Proof.
  split; [reflexivity|]. split; [vm_compute; reflexivity|].
  intros H.
  specialize (H _ _ recording_host (VArrayBuffer [x01; x02; x03]) (lit "utf8") (Some 2%N)).
  assert (Hne : lit "utf8" <> lit "base64url") by (vm_compute; discriminate).
  specialize (H Hne). vm_compute in H. discriminate.
Qed.

(** * Further properties of the codec *)

Lemma list_ind4 {A : Type} (P : list A -> Prop) :
  P [] -> (forall a, P [a]) -> (forall a b, P [a; b]) -> (forall a b c, P [a; b; c]) ->
  (forall a b c d l, P l -> P (a :: b :: c :: d :: l)) ->
  forall l, P l.
Proof.
  intros H0 H1 H2 H3 H4 l.
  enough (H : P l /\ (forall a, P (a :: l)) /\ (forall a b, P (a :: b :: l))
              /\ (forall a b c, P (a :: b :: c :: l))) by apply H.
  induction l as [|x l (IH0 & IH1 & IH2 & IH3)].
  - auto.
  - repeat split; auto.
Qed.

Lemma pad_not_b64 (l : jsstring) :
  In Host.pad l -> forallb Host.is_b64_char l = false.
Proof.
  intros Hin. destruct (forallb Host.is_b64_char l) eqn:E; [|reflexivity].
  rewrite forallb_forall in E. specialize (E _ Hin). vm_compute in E. discriminate.
Qed.

Lemma strip_padding_three_pads (Y : jsstring) :
  In Host.pad (Host.strip_padding (Y ++ repeat Host.pad 3)).
Proof.
  unfold Host.strip_padding.
  destruct (Nat.eqb (length (Y ++ repeat Host.pad 3) mod 4) 0).
  - cbn [repeat]. rewrite rev_app_distr. cbn [rev app]. rewrite !N.eqb_refl.
    cbn [rev]. rewrite rev_involutive. apply in_or_app. right. now left.
  - apply in_or_app. right. now left.
Qed.

Lemma forgiving_decode_three_pads_any (X : jsstring) :
  Host.forgiving_base64_decode (X ++ repeat Host.pad 3) = None.
Proof.
  unfold Host.forgiving_base64_decode. rewrite filter_app.
  replace (filter (fun c => negb (Host.is_ascii_whitespace c)) (repeat Host.pad 3))
    with (repeat Host.pad 3) by reflexivity.
  set (Y := filter _ X).
  rewrite (pad_not_b64 _ (strip_padding_three_pads Y)).
  now destruct (Nat.eqb _ 1).
Qed.

Lemma decode_throws_on_length (input : jsstring) :
  (length input mod 4 = 1)%nat -> decode input = Throw InvalidCharacterError.
Proof.
  intros Hlen. rewrite decode_unfold, Hlen.
  change ((4 - 1) mod 4)%nat with 3%nat. change (chr "=") with Host.pad.
  unfold Host.atob. now rewrite forgiving_decode_three_pads_any.
Qed.

(** X1. [decode] throws on every string whose length is 1 modulo 4, whatever
    its characters: three [=] are appended, [atob] cannot remove them all
    and rejects the string. *)
Theorem decode_length_1_mod_4_any (input : jsstring) :
  (length input mod 4 = 1)%nat ->
  (forall X : jsstring,
     Host.atob (X ++ repeat (chr "=") ((4 - length input mod 4) mod 4))
     = Throw InvalidCharacterError)
  /\ decode input = Throw InvalidCharacterError.
Proof.
  intros Hlen. split; [|now apply decode_throws_on_length].
  intros X. rewrite Hlen. change ((4 - 1) mod 4)%nat with 3%nat.
  change (chr "=") with Host.pad.
  unfold Host.atob. now rewrite forgiving_decode_three_pads_any.
Qed.

Lemma decode_length_1_mod_4_any_witness :
  (length (lit "QUJD" ++ [10%N]) mod 4 = 1)%nat
  /\ decode (lit "QUJD" ++ [10%N]) = Throw InvalidCharacterError.
Proof.
  assert (H : (length (lit "QUJD" ++ [10%N]) mod 4 = 1)%nat) by reflexivity.
  split; [exact H|]. exact (proj2 (decode_length_1_mod_4_any _ H)).
Defined.

(** ** The size of what [decode] returns *)

Lemma length_decode_groups (sx : list N) :
  (length sx mod 4 <> 1)%nat ->
  length (Host.decode_groups sx) = (3 * length sx / 4)%nat.
Proof.
  induction sx as [|a|a b|a b c|a b c d l IH] using list_ind4; intros Hlen;
    try reflexivity.
  cbn [Host.decode_groups length] in *.
  replace (S (S (S (S (length l))))) with (length l + 1 * 4)%nat in Hlen by lia.
  rewrite Nat.Div0.mod_add in Hlen. rewrite (IH Hlen).
  replace (3 * S (S (S (S (length l)))))%nat with (3 * length l + 3 * 4)%nat by lia.
  rewrite Nat.div_add by lia. lia.
Qed.

Lemma url_safe_sextets (s : jsstring) :
  url_safe s -> exists sx, Forall (fun i => i < 64) sx /\ s = map url_char sx.
Proof.
  unfold url_safe. induction s as [|c s IH]; intros H.
  - exists []. split; [constructor | reflexivity].
  - cbn [forallb] in H. apply andb_prop in H. destruct H as [Hc Hs].
    destruct (is_url_char_inv c Hc) as (i & Hi & ->).
    destruct (IH Hs) as (sx & Hsx & ->).
    exists (i :: sx). split; [now constructor | reflexivity].
Qed.

(** X2. On a string of [n] characters of the URL-safe alphabet, [n] not 1
    modulo 4, [decode] returns exactly [floor(3n/4)] bytes. *)
Theorem decode_byte_count (input : jsstring) :
  url_safe input -> (length input mod 4 <> 1)%nat ->
  exists bytes, decode input = Ok bytes /\ length bytes = (3 * length input / 4)%nat.
Proof.
  intros Hsafe Hlen. destruct (url_safe_sextets input Hsafe) as (sx & Hsx & ->).
  rewrite length_map in *. eexists. split; [now apply decode_url_chars|].
  rewrite length_map. now apply length_decode_groups.
Qed.

Lemma decode_byte_count_witness :
  url_safe (lit "SGVsbG8sIFdvcmxkIQ")
  /\ (length (lit "SGVsbG8sIFdvcmxkIQ") mod 4 <> 1)%nat
  /\ exists bytes, decode (lit "SGVsbG8sIFdvcmxkIQ") = Ok bytes /\ length bytes = 13%nat.
Proof.
  assert (H1 : url_safe (lit "SGVsbG8sIFdvcmxkIQ")) by (vm_compute; reflexivity).
  assert (H2 : (length (lit "SGVsbG8sIFdvcmxkIQ") mod 4 <> 1)%nat) by (vm_compute; discriminate).
  split; [exact H1|]. split; [exact H2|].
  exact (decode_byte_count _ H1 H2).
Defined.

(** ** Input that brings its own padding *)

Lemma std_table (i : N) : i < 64 -> from_url_char (Host.b64_char i) = Host.b64_char i.
Proof.
  intros Hi. apply N.eqb_eq.
  apply (below_complete 64 std_table_ok); [vm_compute; reflexivity | exact Hi].
Qed.

Lemma from_url_char_std (X : jsstring) :
  forallb Host.is_b64_char X = true -> map from_url_char X = X.
Proof.
  induction X as [|c X IH]; cbn [forallb map]; [reflexivity|].
  intros H. apply andb_prop in H. destruct H as [Hc HX].
  destruct (is_b64_char_inv c Hc) as (i & Hi & ->).
  now rewrite std_table, IH.
Qed.

Lemma from_url_char_pads (k : nat) :
  map from_url_char (repeat (chr "=") k) = repeat (chr "=") k.
Proof. induction k as [|k IH]; [reflexivity|]. cbn [repeat map]. now rewrite IH. Qed.

(** [decode] on a string that ends with the padding its length asks for. *)
Lemma decode_with_padding (input : jsstring) :
  forallb Host.is_b64_char (map from_url_char input) = true ->
  (length input mod 4 <> 1)%nat ->
  decode (input ++ repeat (chr "=") ((4 - length input mod 4) mod 4)) = decode input.
Proof.
  intros Hchars Hlen. rewrite (decode_value input Hchars Hlen).
  rewrite decode_unfold, length_app, repeat_length, padded_length_mod4 by assumption.
  change ((4 - 0) mod 4)%nat with 0%nat. cbn [repeat]. rewrite app_nil_r.
  rewrite map_app, from_url_char_pads. unfold Host.atob.
  pose proof (forgiving_decode_padded (map from_url_char input) Hchars) as E.
  rewrite length_map in E. change Host.pad with (chr "=") in E.
  now rewrite (E Hlen).
Qed.

(** X3. [decode] takes padded input as well: a string over the URL-safe
    alphabet followed by the [=] characters that fill its length up to a
    multiple of four is decoded like the string without them. *)
Theorem decode_accepts_padding (input : jsstring) :
  url_safe input -> (length input mod 4 <> 1)%nat ->
  exists bytes,
    decode input = Ok bytes
    /\ decode (input ++ repeat (chr "=") ((4 - length input mod 4) mod 4)) = Ok bytes.
Proof.
  intros Hsafe Hlen. pose proof (url_safe_from_url input Hsafe) as Hchars.
  eexists. split; [now apply decode_value|].
  rewrite decode_with_padding by assumption. now apply decode_value.
Qed.

Lemma decode_accepts_padding_witness :
  url_safe (lit "SGVsbG8sIFdvcmxkIQ")
  /\ (length (lit "SGVsbG8sIFdvcmxkIQ") mod 4 <> 1)%nat
  /\ decode (lit "SGVsbG8sIFdvcmxkIQ==") = Ok (bytes_of_ascii "Hello, World!").
Proof.
  assert (H1 : url_safe (lit "SGVsbG8sIFdvcmxkIQ")) by (vm_compute; reflexivity).
  assert (H2 : (length (lit "SGVsbG8sIFdvcmxkIQ") mod 4 <> 1)%nat) by (vm_compute; discriminate).
  split; [exact H1|]. split; [exact H2|].
  destruct (decode_accepts_padding _ H1 H2) as (bytes & Hd & Hp).
  change (lit "SGVsbG8sIFdvcmxkIQ==")
    with (lit "SGVsbG8sIFdvcmxkIQ"
          ++ repeat (chr "=") ((4 - length (lit "SGVsbG8sIFdvcmxkIQ") mod 4) mod 4)).
  rewrite Hp, <- Hd. vm_compute. reflexivity.
Defined.

Lemma encode_groups_sextets (bs : list N) :
  Host.encode_groups bs
  = map Host.b64_char (sextets_of_bytes bs) ++ repeat Host.pad (stripped (length bs)).
Proof.
  induction bs as [|a|a b|a b c l IH] using list_ind3; try reflexivity.
  cbn [Host.encode_groups sextets_of_bytes map length app].
  now rewrite IH, stripped_step.
Qed.

Lemma pad_count_sextets (bs : list N) :
  ((4 - length (sextets_of_bytes bs) mod 4) mod 4 = stripped (length bs))%nat.
Proof.
  induction bs as [|a|a b|a b c l IH] using list_ind3; try reflexivity.
  cbn [sextets_of_bytes length]. rewrite stripped_step, <- IH.
  replace (S (S (S (S (length (sextets_of_bytes l))))))
    with (length (sextets_of_bytes l) + 1 * 4)%nat by lia.
  now rewrite Nat.Div0.mod_add.
Qed.

Lemma b64_chars_of_sextets (sx : list N) :
  Forall (fun i => i < 64) sx -> forallb Host.is_b64_char (map Host.b64_char sx) = true.
Proof.
  induction 1 as [|i sx Hi _ IH]; cbn [map forallb]; [reflexivity|].
  now rewrite is_b64_char_b64_char, IH.
Qed.

(** X4. [decode] reads standard Base64 too: for every byte array, [btoa]
    gives a text, with [+], [/] and [=], and [decode] of that text returns
    the bytes. *)
Theorem decode_btoa (bytes : Uint8Array) :
  exists base64,
    Host.btoa (map fromCharCode bytes) = Ok base64 /\ decode base64 = Ok bytes.
Proof.
  exists (Host.encode_groups (map Byte.to_N bytes)). split; [apply btoa_bytes|].
  set (sx := sextets_of_bytes (map Byte.to_N bytes)).
  assert (Hsx : Forall (fun i => i < 64) sx) by apply sextets_lt_64.
  pose proof (b64_chars_of_sextets sx Hsx) as Hchars.
  assert (Hlen : (length (map Host.b64_char sx) mod 4 <> 1)%nat)
    by (rewrite length_map; apply length_sextets_mod4).
  rewrite encode_groups_sextets. fold sx.
  rewrite <- (pad_count_sextets (map Byte.to_N bytes)). fold sx.
  rewrite <- (length_map Host.b64_char sx). change Host.pad with (chr "=").
  rewrite decode_with_padding, decode_value; try assumption;
    rewrite ?from_url_char_std by assumption; try assumption.
  rewrite sextet_b64_chars by assumption. unfold sx.
  rewrite decode_groups_sextets by apply Forall_to_N_lt_256.
  now rewrite map_ToUint8_to_N.
Qed.

Example decode_standard_text :
  Host.btoa (map fromCharCode [xfb; xef; xff]) = Ok (lit "++//")
  /\ decode (lit "++//") = Ok [xfb; xef; xff]
  /\ decode (lit "--__") = Ok [xfb; xef; xff].
Proof. repeat split; vm_compute; reflexivity. Qed.

(** ** No two byte arrays share an encoding *)

(** X5. [encode] is injective on byte arrays: different bytes never give the
    same string. *)
Theorem encode_injective (a b : Uint8Array) :
  a <> b -> encode (Bytes a) <> encode (Bytes b).
Proof.
  intros Hab Heq. rewrite !encode_bytes_value in Heq. injection Heq as Heq.
  apply Hab.
  pose proof (decode_encoded_bytes a) as Ha. pose proof (decode_encoded_bytes b) as Hb.
  rewrite Heq in Ha. rewrite Ha in Hb. now injection Hb.
Qed.

Lemma encode_injective_witness :
  [x01] <> [x01; x00] /\ encode (Bytes [x01]) <> encode (Bytes [x01; x00]).
Proof.
  assert (H : [x01] <> [x01; x00]) by discriminate.
  split; [exact H|]. exact (encode_injective _ _ H).
Defined.

(** ** Concatenation *)

Lemma sextets_app (a b : list N) :
  (length a mod 3 = 0)%nat ->
  sextets_of_bytes (a ++ b) = sextets_of_bytes a ++ sextets_of_bytes b.
Proof.
  induction a as [|x|x y|x y z l IH] using list_ind3; intros Hlen;
    try reflexivity; try discriminate.
  cbn [length] in Hlen.
  replace (S (S (S (length l)))) with (length l + 1 * 3)%nat in Hlen by lia.
  rewrite Nat.Div0.mod_add in Hlen.
  cbn [app sextets_of_bytes]. now rewrite (IH Hlen).
Qed.

(** X6. [encode] goes through concatenation at a multiple of three bytes:
    when the length of [a] is a multiple of 3, the encoding of [a ++ b] is
    the encoding of [a] followed by that of [b]. *)
Theorem encode_app (a b : Uint8Array) :
  (length a mod 3 = 0)%nat ->
  exists sa sb,
    encode (Bytes a) = Ok sa /\ encode (Bytes b) = Ok sb
    /\ encode (Bytes (a ++ b)) = Ok (sa ++ sb).
Proof.
  intros Hlen. do 2 eexists. rewrite !encode_bytes_value. repeat split.
  rewrite map_app, sextets_app by now rewrite length_map.
  now rewrite map_app.
Qed.

Lemma encode_app_witness :
  (length (bytes_of_ascii "Hello,") mod 3 = 0)%nat
  /\ encode (Bytes (bytes_of_ascii "Hello," ++ bytes_of_ascii " World!"))
     = Ok (lit "SGVsbG8s" ++ lit "IFdvcmxkIQ").
Proof.
  assert (H : (length (bytes_of_ascii "Hello,") mod 3 = 0)%nat) by reflexivity.
  split; [exact H|].
  destruct (encode_app (bytes_of_ascii "Hello,") (bytes_of_ascii " World!") H)
    as (sa & sb & Ha & Hb & Hab).
  rewrite Hab. vm_compute in Ha, Hb.
  injection Ha as <-. injection Hb as <-. reflexivity.
Defined.

Lemma decode_groups_app (a b : list N) :
  (length a mod 4 = 0)%nat ->
  Host.decode_groups (a ++ b) = Host.decode_groups a ++ Host.decode_groups b.
Proof.
  induction a as [|x|x y|x y z|x y z w l IH] using list_ind4; intros Hlen;
    try reflexivity; try discriminate.
  cbn [length] in Hlen.
  replace (S (S (S (S (length l))))) with (length l + 1 * 4)%nat in Hlen by lia.
  rewrite Nat.Div0.mod_add in Hlen.
  cbn [app Host.decode_groups]. now rewrite (IH Hlen).
Qed.

(** X7. [decode] goes through concatenation at a multiple of four
    characters: for strings over the URL-safe alphabet, the first of a
    length that is a multiple of 4, the bytes of [s1 ++ s2] are the bytes of
    [s1] followed by those of [s2]. *)
Theorem decode_app (s1 s2 : jsstring) :
  url_safe s1 -> url_safe s2 ->
  (length s1 mod 4 = 0)%nat -> (length s2 mod 4 <> 1)%nat ->
  exists b1 b2,
    decode s1 = Ok b1 /\ decode s2 = Ok b2 /\ decode (s1 ++ s2) = Ok (b1 ++ b2).
Proof.
  intros H1 H2 L1 L2.
  destruct (url_safe_sextets s1 H1) as (x1 & Hx1 & ->).
  destruct (url_safe_sextets s2 H2) as (x2 & Hx2 & ->).
  rewrite length_map in *.
  exists (map ToUint8 (Host.decode_groups x1)), (map ToUint8 (Host.decode_groups x2)).
  split; [apply decode_url_chars; [assumption | lia]|].
  split; [now apply decode_url_chars|].
  rewrite <- map_app, decode_url_chars.
  - now rewrite decode_groups_app, map_app.
  - now apply Forall_app.
  - rewrite length_app, (mod4_add _ 0 _ L1). exact L2.
Qed.

Lemma decode_app_witness :
  url_safe (lit "SGVsbG8s") /\ url_safe (lit "IFdvcmxkIQ")
  /\ (length (lit "SGVsbG8s") mod 4 = 0)%nat /\ (length (lit "IFdvcmxkIQ") mod 4 <> 1)%nat
  /\ decode (lit "SGVsbG8s" ++ lit "IFdvcmxkIQ") = Ok (bytes_of_ascii "Hello, World!").
Proof.
  assert (H1 : url_safe (lit "SGVsbG8s")) by (vm_compute; reflexivity).
  assert (H2 : url_safe (lit "IFdvcmxkIQ")) by (vm_compute; reflexivity).
  assert (L1 : (length (lit "SGVsbG8s") mod 4 = 0)%nat) by reflexivity.
  assert (L2 : (length (lit "IFdvcmxkIQ") mod 4 <> 1)%nat) by (vm_compute; discriminate).
  repeat (split; [assumption|]).
  destruct (decode_app _ _ H1 H2 L1 L2) as (b1 & b2 & Hb1 & Hb2 & Hb).
  rewrite Hb. vm_compute in Hb1, Hb2.
  injection Hb1 as <-. injection Hb2 as <-. reflexivity.
Defined.

(** ** Decoding and encoding again *)

Lemma mod_256_lt (x : N) : x mod 256 < 256.
Proof. now apply N.mod_lt. Qed.

Lemma join_bytes2 (m : N) : m < 65536 -> (m / 256) mod 256 * 256 + m mod 256 = m.
Proof.
  intros Hm. pose proof (N.div_mod' m 256) as E1.
  assert (m / 256 < 256) by (apply N.Div0.div_lt_upper_bound; lia).
  rewrite (N.mod_small (m / 256) 256) by assumption. lia.
Qed.

Lemma join_bytes3 (m : N) :
  m < 16777216 -> (m / 65536) mod 256 * 65536 + (m / 256) mod 256 * 256 + m mod 256 = m.
Proof.
  intros Hm.
  pose proof (N.div_mod' m 256) as E1.
  pose proof (N.div_mod' (m / 256) 256) as E2.
  replace (m / 256 / 256) with (m / 65536) in E2 by (rewrite N.Div0.div_div; reflexivity).
  assert (m / 65536 < 256) by (apply N.Div0.div_lt_upper_bound; lia).
  rewrite (N.mod_small (m / 65536) 256) by assumption. lia.
Qed.

Lemma split_sextets4 (s0 s1 s2 s3 : N) :
  s0 < 64 -> s1 < 64 -> s2 < 64 -> s3 < 64 ->
  let m := s0 * 262144 + s1 * 4096 + s2 * 64 + s3 in
  (m / 262144) mod 64 = s0 /\ (m / 4096) mod 64 = s1
  /\ (m / 64) mod 64 = s2 /\ m mod 64 = s3.
Proof.
  intros H0 H1 H2 H3 m. subst m. repeat split.
  - replace (s0 * 262144 + s1 * 4096 + s2 * 64 + s3)
      with (s0 * 262144 + (s1 * 4096 + s2 * 64 + s3)) by lia.
    rewrite div_mul_add by lia. now apply N.mod_small.
  - replace (s0 * 262144 + s1 * 4096 + s2 * 64 + s3)
      with ((s0 * 64 + s1) * 4096 + (s2 * 64 + s3)) by lia.
    rewrite div_mul_add by lia. now apply mod_mul_add.
  - replace (s0 * 262144 + s1 * 4096 + s2 * 64 + s3)
      with ((s0 * 4096 + s1 * 64 + s2) * 64 + s3) by lia.
    rewrite div_mul_add by lia.
    replace (s0 * 4096 + s1 * 64 + s2) with ((s0 * 64 + s1) * 64 + s2) by lia.
    now apply mod_mul_add.
  - replace (s0 * 262144 + s1 * 4096 + s2 * 64 + s3)
      with ((s0 * 4096 + s1 * 64 + s2) * 64 + s3) by lia.
    now apply mod_mul_add.
Qed.

Lemma regroup4 (s0 s1 s2 s3 : N) (rest : list N) :
  s0 < 64 -> s1 < 64 -> s2 < 64 -> s3 < 64 ->
  exists b0 b1 b2,
    Host.decode_groups (s0 :: s1 :: s2 :: s3 :: rest)
    = b0 :: b1 :: b2 :: Host.decode_groups rest
    /\ forall bytes, sextets_of_bytes (b0 :: b1 :: b2 :: bytes)
                     = s0 :: s1 :: s2 :: s3 :: sextets_of_bytes bytes.
Proof.
  intros H0 H1 H2 H3. do 3 eexists. split; [reflexivity|].
  intros bytes. cbn [sextets_of_bytes]. shifts_to_arith.
  rewrite lor_sextets4 by assumption.
  rewrite lor_bytes3 by apply mod_256_lt.
  rewrite join_bytes3 by lia.
  destruct (split_sextets4 s0 s1 s2 s3 H0 H1 H2 H3) as (E0 & E1 & E2 & E3).
  now rewrite E0, E1, E2, E3.
Qed.

Lemma regroup3 (s0 s1 s2 : N) :
  s0 < 64 -> s1 < 64 -> s2 < 64 ->
  sextets_of_bytes (Host.decode_groups [s0; s1; s2]) = [s0; s1; s2 / 4 * 4].
Proof.
  intros H0 H1 H2. cbn [sextets_of_bytes Host.decode_groups]. shifts_to_arith.
  rewrite lor_sextets3 by assumption.
  pose proof (N.div_mod' s2 4) as E. pose proof (N.mod_lt s2 4 ltac:(discriminate)) as L.
  set (q := s2 / 4) in *. set (r := s2 mod 4) in *. clearbody q r.
  replace ((s0 * 4096 + s1 * 64 + s2) / 4) with (s0 * 1024 + s1 * 16 + q)
    by (apply (N.div_unique _ 4 _ r); lia).
  assert (Hq : s0 * 1024 + s1 * 16 + q < 65536) by lia.
  rewrite lor_bytes2 by apply mod_256_lt.
  rewrite join_bytes2 by assumption.
  replace ((s0 * 1024 + s1 * 16 + q) * 4) with (s0 * 4096 + s1 * 64 + q * 4 * 1) by lia.
  assert (Hq4 : q * 4 * 1 < 64) by lia.
  f_equal; [|f_equal; [|f_equal]].
  - replace (s0 * 4096 + s1 * 64 + q * 4 * 1) with (s0 * 4096 + (s1 * 64 + q * 4 * 1)) by lia.
    rewrite div_mul_add by lia. now apply N.mod_small.
  - replace (s0 * 4096 + s1 * 64 + q * 4 * 1) with ((s0 * 64 + s1) * 64 + q * 4 * 1) by lia.
    rewrite div_mul_add by lia. now apply mod_mul_add.
  - replace (s0 * 4096 + s1 * 64 + q * 4 * 1) with ((s0 * 64 + s1) * 64 + q * 4 * 1) by lia.
    rewrite mod_mul_add by lia. lia.
Qed.

Lemma regroup2 (s0 s1 : N) :
  s0 < 64 -> s1 < 64 ->
  sextets_of_bytes (Host.decode_groups [s0; s1]) = [s0; s1 / 16 * 16].
Proof.
  intros H0 H1. cbn [sextets_of_bytes Host.decode_groups]. shifts_to_arith.
  rewrite lor_sextets2 by assumption.
  pose proof (N.div_mod' s1 16) as E. pose proof (N.mod_lt s1 16 ltac:(discriminate)) as L.
  set (q := s1 / 16) in *. set (r := s1 mod 16) in *. clearbody q r.
  replace ((s0 * 64 + s1) / 16) with (s0 * 4 + q)
    by (apply (N.div_unique _ 16 _ r); lia).
  rewrite (N.mod_small (s0 * 4 + q) 256) by lia.
  replace ((s0 * 4 + q) * 16) with (s0 * 64 + q * 16) by lia.
  f_equal; [|f_equal].
  - rewrite div_mul_add by lia. now apply N.mod_small.
  - apply mod_mul_add. lia.
Qed.

Lemma sextets_decode_groups (sx : list N) :
  Forall (fun i => i < 64) sx -> (length sx mod 4 <> 1)%nat ->
  sextets_of_bytes (Host.decode_groups sx) = canonical_sextets sx.
Proof.
  induction sx as [|a|a b|a b c|a b c d l IH] using list_ind4; intros Hsx Hlen.
  - reflexivity.
  - now contradiction Hlen.
  - inversion_clear Hsx as [|? ? Ha Hsx']. inversion_clear Hsx' as [|? ? Hb _].
    now apply regroup2.
  - inversion_clear Hsx as [|? ? Ha Hsx']. inversion_clear Hsx' as [|? ? Hb Hsx''].
    inversion_clear Hsx'' as [|? ? Hc _]. now apply regroup3.
  - inversion_clear Hsx as [|? ? Ha Hsx']. inversion_clear Hsx' as [|? ? Hb Hsx''].
    inversion_clear Hsx'' as [|? ? Hc Hsx3]. inversion_clear Hsx3 as [|? ? Hd Hl].
    cbn [length] in Hlen.
    replace (S (S (S (S (length l))))) with (length l + 1 * 4)%nat in Hlen by lia.
    rewrite Nat.Div0.mod_add in Hlen.
    destruct (regroup4 a b c d l Ha Hb Hc Hd) as (b0 & b1 & b2 & Hdec & Henc).
    rewrite Hdec, Henc. cbn [canonical_sextets]. now rewrite IH.
Qed.

Lemma decode_groups_lt_256 (sx : list N) : Forall (fun b => b < 256) (Host.decode_groups sx).
Proof.
  induction sx as [|a|a b|a b c|a b c d l IH] using list_ind4;
    cbn [Host.decode_groups]; rewrite ?land_255;
    repeat (constructor; try apply mod_256_lt); assumption.
Qed.

Lemma canonical_sextets_full (sx : list N) :
  (length sx mod 4 = 0)%nat -> canonical_sextets sx = sx.
Proof.
  induction sx as [|a|a b|a b c|a b c d l IH] using list_ind4; intros Hlen;
    try reflexivity; try discriminate.
  cbn [length] in Hlen.
  replace (S (S (S (S (length l))))) with (length l + 1 * 4)%nat in Hlen by lia.
  rewrite Nat.Div0.mod_add in Hlen.
  cbn [canonical_sextets]. now rewrite (IH Hlen).
Qed.

Lemma canonical_sextets_shape (sx : list N) :
  Forall (fun i => i < 64) sx ->
  length (canonical_sextets sx) = length sx
  /\ removelast (canonical_sextets sx) = removelast sx
  /\ Forall (fun i => i < 64) (canonical_sextets sx).
Proof.
  induction sx as [|a|a b|a b c|a b c d l IH] using list_ind4; intros Hsx.
  - now repeat split.
  - now repeat split.
  - inversion_clear Hsx as [|? ? Ha Hsx']. inversion_clear Hsx' as [|? ? Hb _].
    repeat split. repeat constructor; try assumption.
    pose proof (N.Div0.mul_div_le b 16). lia.
  - inversion_clear Hsx as [|? ? Ha Hsx']. inversion_clear Hsx' as [|? ? Hb Hsx''].
    inversion_clear Hsx'' as [|? ? Hc _].
    repeat split. repeat constructor; try assumption.
    pose proof (N.Div0.mul_div_le c 4). lia.
  - inversion_clear Hsx as [|? ? Ha Hsx']. inversion_clear Hsx' as [|? ? Hb Hsx''].
    inversion_clear Hsx'' as [|? ? Hc Hsx3]. inversion_clear Hsx3 as [|? ? Hd Hl].
    destruct (IH Hl) as (I1 & I2 & I3). cbn [canonical_sextets]. repeat split.
    + cbn [length]. now rewrite I1.
    + destruct l as [|x l']; [reflexivity|].
      destruct (canonical_sextets (x :: l')) as [|y l''] eqn:E; [discriminate I1|].
      change (removelast (a :: b :: c :: d :: y :: l''))
        with (a :: b :: c :: d :: removelast (y :: l'')).
      change (removelast (a :: b :: c :: d :: x :: l'))
        with (a :: b :: c :: d :: removelast (x :: l')).
      now rewrite I2.
    + now repeat constructor.
Qed.

Lemma removelast_map {A B : Type} (f : A -> B) (l : list A) :
  removelast (map f l) = map f (removelast l).
Proof.
  induction l as [|x l IH]; [reflexivity|].
  destruct l as [|y l]; [reflexivity|].
  change (removelast (map f (x :: y :: l))) with (f x :: removelast (map f (y :: l))).
  change (removelast (x :: y :: l)) with (x :: removelast (y :: l)).
  cbn [map]. now rewrite <- IH.
Qed.

(** What [encode] makes of the bytes [decode] returns. *)
Lemma encode_decoded (sx : list N) :
  Forall (fun i => i < 64) sx -> (length sx mod 4 <> 1)%nat ->
  decode (map url_char sx) = Ok (map ToUint8 (Host.decode_groups sx))
  /\ encode (Bytes (map ToUint8 (Host.decode_groups sx)))
     = Ok (map url_char (canonical_sextets sx)).
Proof.
  intros Hsx Hlen. split; [now apply decode_url_chars|].
  rewrite encode_bytes_value, map_to_N_ToUint8 by apply decode_groups_lt_256.
  now rewrite sextets_decode_groups.
Qed.

(** X8. A string over the URL-safe alphabet whose length is a multiple of 4
    is the encoding of the bytes it decodes to: [encode(decode(s))] is [s]. *)
Theorem encode_decode_full_groups (s : jsstring) :
  url_safe s -> (length s mod 4 = 0)%nat ->
  exists bytes, decode s = Ok bytes /\ encode (Bytes bytes) = Ok s.
Proof.
  intros Hsafe Hlen. destruct (url_safe_sextets s Hsafe) as (sx & Hsx & ->).
  rewrite length_map in Hlen.
  destruct (encode_decoded sx Hsx ltac:(lia)) as (Hd & He).
  eexists. split; [exact Hd|]. rewrite He. now rewrite canonical_sextets_full.
Qed.

Lemma encode_decode_full_groups_witness :
  url_safe (lit "SGVsbG8s") /\ (length (lit "SGVsbG8s") mod 4 = 0)%nat
  /\ exists bytes, decode (lit "SGVsbG8s") = Ok bytes
                   /\ encode (Bytes bytes) = Ok (lit "SGVsbG8s").
Proof.
  assert (H1 : url_safe (lit "SGVsbG8s")) by (vm_compute; reflexivity).
  assert (H2 : (length (lit "SGVsbG8s") mod 4 = 0)%nat) by reflexivity.
  split; [exact H1|]. split; [exact H2|].
  exact (encode_decode_full_groups _ H1 H2).
Defined.

(** X9. For every string [s] over the URL-safe alphabet of a length other
    than 1 modulo 4, [encode(decode(s))] is a string of the length of [s]
    that equals [s] up to its last character and decodes to the same
    bytes. *)
Theorem encode_decode_normalizes (s : jsstring) :
  url_safe s -> (length s mod 4 <> 1)%nat ->
  exists bytes e,
    decode s = Ok bytes /\ encode (Bytes bytes) = Ok e
    /\ length e = length s /\ removelast e = removelast s
    /\ url_safe e /\ decode e = Ok bytes.
Proof.
  intros Hsafe Hlen. destruct (url_safe_sextets s Hsafe) as (sx & Hsx & ->).
  rewrite length_map in Hlen.
  destruct (encode_decoded sx Hsx Hlen) as (Hd & He).
  destruct (canonical_sextets_shape sx Hsx) as (C1 & C2 & C3).
  do 2 eexists. split; [exact Hd|]. split; [exact He|].
  rewrite !length_map, !removelast_map, C1, C2.
  repeat split; [now apply url_safe_map_url_char|].
  pose proof (decode_encoded_bytes (map ToUint8 (Host.decode_groups sx))) as R.
  rewrite map_to_N_ToUint8, sextets_decode_groups in R
    by (try apply decode_groups_lt_256; assumption).
  exact R.
Qed.

Lemma encode_decode_normalizes_witness :
  url_safe (lit "QR") /\ (length (lit "QR") mod 4 <> 1)%nat
  /\ decode (lit "QR") = Ok [x41] /\ encode (Bytes [x41]) = Ok (lit "QQ").
Proof.
  assert (H1 : url_safe (lit "QR")) by (vm_compute; reflexivity).
  assert (H2 : (length (lit "QR") mod 4 <> 1)%nat) by (vm_compute; discriminate).
  split; [exact H1|]. split; [exact H2|].
  destruct (encode_decode_normalizes _ H1 H2) as (bytes & e & Hd & He & _).
  vm_compute in Hd. injection Hd as <-. split; [reflexivity|].
  rewrite He. vm_compute in He. injection He as <-. reflexivity.
Defined.

(** * Further properties on strings *)

Lemma to_scalars_lone_trail (c : N) (rest : jsstring) :
  Text.is_lead_surrogate c = false -> Text.is_trail_surrogate c = true ->
  Text.to_scalars (c :: rest) = 0xFFFD :: Text.to_scalars rest.
Proof. intros Hl Ht. cbn [Text.to_scalars]. now rewrite Hl, Ht. Qed.

Lemma to_scalars_lone_lead (c d : N) (rest : jsstring) :
  Text.is_lead_surrogate c = true -> Text.is_trail_surrogate d = false ->
  Text.to_scalars (c :: d :: rest) = 0xFFFD :: Text.to_scalars (d :: rest).
Proof.
  intros Hl Ht. change (Text.to_scalars (c :: d :: rest))
    with (if Text.is_lead_surrogate c
          then if Text.is_trail_surrogate d
               then (0x10000 + N.shiftl (c - 0xD800) 10 + (d - 0xDC00)) :: Text.to_scalars rest
               else 0xFFFD :: Text.to_scalars (d :: rest)
          else if Text.is_trail_surrogate c then 0xFFFD :: Text.to_scalars (d :: rest)
               else c :: Text.to_scalars (d :: rest)).
  now rewrite Hl, Ht.
Qed.

Lemma to_scalars_last_lead (c : N) :
  Text.is_lead_surrogate c = true -> Text.to_scalars [c] = [0xFFFD].
Proof. intros Hl. cbn [Text.to_scalars]. now rewrite Hl. Qed.

(** How [Text.to_scalars] takes a string apart: one case for each way its
    first code point comes about. *)
Lemma to_scalars_cases (c : code_unit) (rest : jsstring) :
  c <= 0xFFFF ->
  (exists d rest', rest = d :: rest'
     /\ Text.is_lead_surrogate c = true /\ Text.is_trail_surrogate d = true
     /\ Text.to_scalars (c :: rest)
        = (0x10000 + N.shiftl (c - 0xD800) 10 + (d - 0xDC00)) :: Text.to_scalars rest')
  \/ (Text.to_scalars (c :: rest) = 0xFFFD :: Text.to_scalars rest)
  \/ (Text.is_lead_surrogate c = false /\ Text.is_trail_surrogate c = false
      /\ Text.to_scalars (c :: rest) = c :: Text.to_scalars rest).
Proof.
  intros Hc. destruct (Text.is_lead_surrogate c) eqn:El.
  - destruct rest as [|d rest'].
    + right; left. now apply to_scalars_last_lead.
    + destruct (Text.is_trail_surrogate d) eqn:Et.
      * left. exists d, rest'. repeat split; try assumption. now apply to_scalars_pair.
      * right; left. now apply to_scalars_lone_lead.
  - destruct (Text.is_trail_surrogate c) eqn:Et.
    + right; left. now apply to_scalars_lone_trail.
    + right; right. repeat split. now apply to_scalars_plain.
Qed.

Lemma to_scalars_scalars (s : jsstring) : code_units s -> scalars (Text.to_scalars s).
Proof.
  unfold code_units, scalars.
  induction s as [|c|c d s IH0 IH1] using list_ind2; intros Hs.
  - constructor.
  - inversion_clear Hs as [|? ? Hc _].
    destruct (to_scalars_cases c [] Hc) as [(d & r & [=] & _)|[E|(El & Et & E)]];
      rewrite E; repeat constructor.
    now apply plain_unit.
  - inversion_clear Hs as [|? ? Hc Hs'].
    destruct (to_scalars_cases c (d :: s) Hc)
      as [(d' & r & [= <- <-] & El & Et & E)|[E|(El & Et & E)]]; rewrite E.
    + inversion_clear Hs' as [|? ? _ Hs'']. constructor; [|now apply IH0].
      now apply surrogate_pair_units.
    + constructor; [reflexivity | now apply IH1].
    + constructor; [now apply plain_unit | now apply IH1].
Qed.

Lemma replace_lone_cases (c : code_unit) (rest : jsstring) :
  c <= 0xFFFF ->
  (exists d rest', rest = d :: rest'
     /\ Text.is_lead_surrogate c = true /\ Text.is_trail_surrogate d = true
     /\ Text.to_scalars (c :: rest)
        = (0x10000 + N.shiftl (c - 0xD800) 10 + (d - 0xDC00)) :: Text.to_scalars rest'
     /\ replace_lone_surrogates (c :: rest) = c :: d :: replace_lone_surrogates rest')
  \/ (Text.to_scalars (c :: rest) = 0xFFFD :: Text.to_scalars rest
      /\ replace_lone_surrogates (c :: rest) = 0xFFFD :: replace_lone_surrogates rest)
  \/ (Text.is_lead_surrogate c = false /\ Text.is_trail_surrogate c = false
      /\ Text.to_scalars (c :: rest) = c :: Text.to_scalars rest
      /\ replace_lone_surrogates (c :: rest) = c :: replace_lone_surrogates rest).
Proof.
  intros Hc. destruct (Text.is_lead_surrogate c) eqn:El.
  - destruct rest as [|d rest'].
    + right; left. cbn [Text.to_scalars replace_lone_surrogates]. now rewrite El.
    + destruct (Text.is_trail_surrogate d) eqn:Et.
      * left. exists d, rest'. repeat split; try assumption.
        -- now apply to_scalars_pair.
        -- cbn [replace_lone_surrogates]. now rewrite El, Et.
      * right; left. split; [now apply to_scalars_lone_lead|].
        change (replace_lone_surrogates (c :: d :: rest'))
          with (if Text.is_lead_surrogate c
                then if Text.is_trail_surrogate d
                     then c :: d :: replace_lone_surrogates rest'
                     else 0xFFFD :: replace_lone_surrogates (d :: rest')
                else if Text.is_trail_surrogate c
                     then 0xFFFD :: replace_lone_surrogates (d :: rest')
                     else c :: replace_lone_surrogates (d :: rest')).
        now rewrite El, Et.
  - destruct (Text.is_trail_surrogate c) eqn:Et.
    + right; left. split; [now apply to_scalars_lone_trail|].
      cbn [replace_lone_surrogates]. now rewrite El, Et.
    + right; right. repeat split; [now apply to_scalars_plain|].
      cbn [replace_lone_surrogates]. now rewrite El, Et.
Qed.

Lemma units_of_scalars (s : jsstring) :
  code_units s ->
  flat_map Text.utf16_units (Text.to_scalars s) = replace_lone_surrogates s.
Proof.
  unfold code_units.
  induction s as [|c|c d s IH0 IH1] using list_ind2; intros Hs.
  - reflexivity.
  - inversion_clear Hs as [|? ? Hc _].
    destruct (replace_lone_cases c [] Hc)
      as [(d & r & [=] & _)|[(E & R)|(El & Et & E & R)]]; rewrite E, R.
    + reflexivity.
    + cbn [flat_map Text.to_scalars replace_lone_surrogates app].
      now rewrite (proj2 (plain_unit c El Et Hc)).
  - inversion_clear Hs as [|? ? Hc Hs'].
    destruct (replace_lone_cases c (d :: s) Hc)
      as [(d' & r & [= <- <-] & El & Et & E & R)|[(E & R)|(El & Et & E & R)]];
      rewrite E, R; cbn [flat_map].
    + inversion_clear Hs' as [|? ? _ Hs''].
      destruct (surrogate_pair_units c d El Et) as (_ & _ & Hu).
      cbv zeta in Hu. rewrite Hu, (IH0 Hs''). reflexivity.
    + now rewrite (IH1 Hs').
    + now rewrite (proj2 (plain_unit c El Et Hc)), (IH1 Hs').
Qed.

(** Dropping U+FEFF before or after the code points are turned into code
    units comes to the same. *)
Lemma units_strip_bom (s : jsstring) :
  code_units s ->
  flat_map Text.utf16_units (Text.strip_bom (Text.to_scalars s)) = sanitized s.
Proof.
  intros Hs. unfold sanitized. rewrite <- (units_of_scalars s Hs).
  destruct s as [|c rest]; [reflexivity|].
  inversion Hs as [|? ? Hc Hrest]; subst.
  destruct (replace_lone_cases c rest Hc)
    as [(d & r & -> & El & Et & E & _)|[(E & _)|(El & Et & E & _)]]; rewrite E.
  - destruct (surrogate_pair_units c d El Et) as (_ & Hne & Hu). cbv zeta in Hne, Hu.
    unfold Text.strip_bom. apply N.eqb_neq in Hne. rewrite Hne.
    cbn [flat_map]. rewrite Hu. cbn [app drop_bom].
    replace (N.eqb c 0xFEFF) with false; [reflexivity|].
    symmetry. apply N.eqb_neq. intros ->. discriminate El.
  - reflexivity.
  - unfold Text.strip_bom.
    destruct (N.eqb c 0xFEFF) eqn:Eb; cbn [flat_map];
      rewrite (proj2 (plain_unit c El Et Hc)); cbn [app drop_bom]; now rewrite Eb.
Qed.

(** What the two text codecs of the host leave of a string. *)
Lemma TextDecoder_TextEncoder_any (s : jsstring) :
  code_units s -> Text.TextDecoder_decode (Text.TextEncoder_encode s) = sanitized s.
Proof.
  intros Hs. unfold Text.TextDecoder_decode, Text.TextEncoder_encode.
  rewrite utf8_decode_encode by now apply to_scalars_scalars.
  now apply units_strip_bom.
Qed.

(** X10. For every string of 16-bit code units, [encode] returns a string
    and [decodeToString] of it returns the string with each lone surrogate
    replaced by U+FFFD and without a leading U+FEFF; neither call throws. *)
Theorem decodeToString_encode_any (s : jsstring) :
  code_units s ->
  exists e, encode (Str s) = Ok e /\ decodeToString e = Ok (sanitized s).
Proof.
  intros Hs.
  exists (map url_char (sextets_of_bytes (map Byte.to_N (Text.TextEncoder_encode s)))).
  split; [rewrite encode_str_bytes; apply encode_bytes_value|].
  unfold decodeToString. rewrite decode_encoded_bytes. cbn [bind].
  now rewrite TextDecoder_TextEncoder_any.
Qed.

Lemma decodeToString_encode_any_witness :
  code_units [0xFEFF; 0x41; 0xDC00; 0xD83D; 0xDE00; 0xD800]
  /\ sanitized [0xFEFF; 0x41; 0xDC00; 0xD83D; 0xDE00; 0xD800]
     = [0x41; 0xFFFD; 0xD83D; 0xDE00; 0xFFFD]
  /\ exists e, encode (Str [0xFEFF; 0x41; 0xDC00; 0xD83D; 0xDE00; 0xD800]) = Ok e
               /\ decodeToString e = Ok [0x41; 0xFFFD; 0xD83D; 0xDE00; 0xFFFD].
Proof.
  assert (H : code_units [0xFEFF; 0x41; 0xDC00; 0xD83D; 0xDE00; 0xD800])
    by (repeat constructor; apply N.leb_le; reflexivity).
  split; [exact H|]. split; [reflexivity|].
  exact (decodeToString_encode_any _ H).
Defined.

(** X11. For every byte array, valid UTF-8 or not, [decodeToString] of its
    encoding is what the host's decoder makes of the bytes; it does not
    throw. *)
Theorem decodeToString_encode_bytes (b : Uint8Array) :
  exists e, encode (Bytes b) = Ok e /\ decodeToString e = Ok (Text.TextDecoder_decode b).
Proof.
  eexists. split; [apply encode_bytes_value|].
  unfold decodeToString. now rewrite decode_encoded_bytes.
Qed.

Example decodeToString_invalid_utf8 :
  encode (Bytes [x41; xff; xc3]) = Ok (lit "Qf_D")
  /\ decodeToString (lit "Qf_D") = Ok [0x41; 0xFFFD; 0xFFFD].
Proof. split; vm_compute; reflexivity. Qed.

(** ** The size of an encoded string *)

Lemma length_utf8_encode_cp (cp : N) :
  (length (Text.utf8_encode_cp cp) <= 4)%nat
  /\ (cp <= 0xFFFF -> (length (Text.utf8_encode_cp cp) <= 3)%nat).
Proof.
  unfold Text.utf8_encode_cp.
  destruct (N.leb_spec cp 0x7F); [|destruct (N.leb_spec cp 0x7FF);
    [|destruct (N.leb_spec cp 0xFFFF)]]; cbn [length]; split; intros; lia.
Qed.

Lemma length_TextEncoder_encode (s : jsstring) :
  code_units s -> (length (Text.TextEncoder_encode s) <= 3 * length s)%nat.
Proof.
  unfold Text.TextEncoder_encode, code_units. rewrite length_map.
  induction s as [|c|c d s IH0 IH1] using list_ind2; intros Hs.
  - cbn. lia.
  - inversion_clear Hs as [|? ? Hc _].
    destruct (to_scalars_cases c [] Hc) as [(d & r & [=] & _)|[E|(El & Et & E)]];
      rewrite E; cbn [flat_map Text.to_scalars length]; rewrite app_nil_r.
    + cbn. lia.
    + pose proof (proj2 (length_utf8_encode_cp c) Hc). lia.
  - inversion_clear Hs as [|? ? Hc Hs'].
    destruct (to_scalars_cases c (d :: s) Hc)
      as [(d' & r & [= <- <-] & El & Et & E)|[E|(El & Et & E)]];
      rewrite E; cbn [flat_map]; rewrite length_app.
    + inversion_clear Hs' as [|? ? _ Hs'']. specialize (IH0 Hs'').
      match goal with
      | |- (length (Text.utf8_encode_cp ?cp) + _ <= _)%nat =>
          pose proof (proj1 (length_utf8_encode_cp cp))
      end.
      cbn [length]. lia.
    + specialize (IH1 Hs'). cbn [length] in *.
      change (length (Text.utf8_encode_cp 65533)) with 3%nat. lia.
    + specialize (IH1 Hs'). pose proof (proj2 (length_utf8_encode_cp c) Hc).
      cbn [length] in *. lia.
Qed.

(** X12. The encoding of a string of [n] 16-bit code units has at most [4n]
    characters. *)
Theorem encode_string_length (s : jsstring) :
  code_units s ->
  exists e, encode (Str s) = Ok e /\ (length e <= 4 * length s)%nat.
Proof.
  intros Hs. eexists. split; [rewrite encode_str_bytes; apply encode_bytes_value|].
  rewrite length_map.
  pose proof (length_sextets (map Byte.to_N (Text.TextEncoder_encode s))) as E.
  rewrite length_map in E.
  pose proof (length_TextEncoder_encode s Hs) as B.
  assert (D : ((length (Text.TextEncoder_encode s) + 2) / 3 < S (length s))%nat).
  { apply Nat.Div0.div_lt_upper_bound. lia. }
  lia.
Qed.

Lemma encode_string_length_witness :
  code_units [0x4E2D; 0x6587] /\ encode (Str [0x4E2D; 0x6587]) = Ok (lit "5Lit5paH")
  /\ (length (lit "5Lit5paH") <= 4 * 2)%nat.
Proof.
  assert (H : code_units [0x4E2D; 0x6587]) by (repeat constructor; apply N.leb_le; reflexivity).
  split; [exact H|].
  destruct (encode_string_length _ H) as (e & He & Hl).
  vm_compute in He. injection He as <-. split; [vm_compute; reflexivity | exact Hl].
Defined.

(** ** White space in the input of [decode] *)

Lemma space_from_url_char (c : code_unit) :
  Host.is_ascii_whitespace (from_url_char c) = Host.is_ascii_whitespace c.
Proof.
  unfold from_url_char.
  destruct (N.eqb_spec c (chr "-")) as [->|_]; [reflexivity|].
  destruct (N.eqb_spec c (chr "_")) as [->|_]; reflexivity.
Qed.

Lemma filter_space_from_url (s : jsstring) :
  filter (fun c => negb (Host.is_ascii_whitespace c)) (map from_url_char s)
  = map from_url_char (filter (fun c => negb (Host.is_ascii_whitespace c)) s).
Proof.
  induction s as [|c s IH]; [reflexivity|].
  cbn [map filter]. rewrite space_from_url_char, IH.
  now destruct (Host.is_ascii_whitespace c).
Qed.

Lemma filter_filter {A : Type} (f : A -> bool) (l : list A) :
  filter f (filter f l) = filter f l.
Proof.
  apply filter_all. intros x Hx. now apply filter_In in Hx.
Qed.

Lemma forgiving_decode_filter (data data' : jsstring) :
  filter (fun c => negb (Host.is_ascii_whitespace c)) data
  = filter (fun c => negb (Host.is_ascii_whitespace c)) data' ->
  Host.forgiving_base64_decode data = Host.forgiving_base64_decode data'.
Proof. unfold Host.forgiving_base64_decode. now intros ->. Qed.

(** X13. [decode] skips ASCII white space, but counts it when it computes the
    padding: a string whose length and whose length without white space
    agree modulo 4 is decoded like the string without its white space. *)
Theorem decode_skips_whitespace (input : jsstring) :
  let clean := filter (fun c => negb (Host.is_ascii_whitespace c)) input in
  (length input mod 4 = length clean mod 4)%nat ->
  decode input = decode clean.
Proof.
  intros clean Hlen. rewrite !decode_unfold, Hlen. unfold Host.atob.
  rewrite (forgiving_decode_filter _
             (map from_url_char clean
              ++ repeat (chr "=") ((4 - length clean mod 4) mod 4))); [reflexivity|].
  rewrite !filter_app, !filter_space_from_url. subst clean.
  now rewrite filter_filter.
Qed.

Lemma decode_skips_whitespace_witness :
  (length wrapped_text mod 4
   = length (filter (fun c => negb (Host.is_ascii_whitespace c))
               wrapped_text) mod 4)%nat
  /\ decode wrapped_text = Ok (bytes_of_ascii "Hello").
Proof.
  assert (H : (length wrapped_text mod 4
               = length (filter (fun c => negb (Host.is_ascii_whitespace c))
                           wrapped_text) mod 4)%nat)
    by reflexivity.
  split; [exact H|].
  rewrite (decode_skips_whitespace _ H). vm_compute. reflexivity.
Defined.

Example decode_counts_whitespace :
  decode (lit "SGVsbA") = Ok (bytes_of_ascii "Hell")
  /\ decode (lit "SGVsbA" ++ [10]) = Throw InvalidCharacterError.
Proof. split; vm_compute; reflexivity. Qed.

(** * Further properties of the JSON wrappers *)

(** X14. [encodeJSON] fails only as [JSON.stringify] does: it throws what
    [JSON.stringify] throws, throws a type error when [JSON.stringify]
    returns [undefined], and otherwise returns a string of the URL-safe
    alphabet. *)
Theorem encodeJSON_outcome {value : Type} {H : JSONHost value} (v : value) :
  match JSON_stringify v with
  | Ok (Some text) => exists e, encodeJSON v = Ok e /\ alphabet_pure e
  | Ok None => encodeJSON v = Throw TypeError
  | Throw err => encodeJSON v = Throw err
  | NoFuel => encodeJSON v = NoFuel
  end.
Proof.
  unfold encodeJSON. destruct (JSON_stringify v) as [[text|]|err|]; try reflexivity.
  cbn [bind]. eexists. split; [rewrite encode_str_bytes; apply encode_bytes_value|].
  apply url_safe_pure, url_safe_map_url_char, sextets_lt_64.
Qed.

(** X15. The codec adds nothing to [JSON.parse]: when [JSON.stringify] gives
    a text of 16-bit code units, [decodeJSON(encodeJSON(v))] is what
    [JSON.parse] returns or throws on that text, its lone surrogates
    replaced by U+FFFD and a leading U+FEFF dropped. *)
Theorem decodeJSON_encodeJSON_parse {value : Type} {H : JSONHost value}
    (v : value) (text : jsstring) :
  JSON_stringify v = Ok (Some text) -> code_units text ->
  exists e, encodeJSON v = Ok e /\ decodeJSON e = JSON_parse (sanitized text).
Proof.
  intros Hs Hu.
  exists (map url_char (sextets_of_bytes (map Byte.to_N (Text.TextEncoder_encode text)))).
  unfold encodeJSON, decodeJSON, decodeToString. rewrite Hs. cbn [bind].
  split; [rewrite encode_str_bytes; apply encode_bytes_value|].
  rewrite decode_encoded_bytes. cbn [bind]. now rewrite TextDecoder_TextEncoder_any.
Qed.

Lemma decodeJSON_encodeJSON_parse_witness :
  JSON_stringify (MiniJSON.JString [0xFEFF; 0xD800])
  = Ok (Some (MiniJSON.qlit "'" ++ [0xFEFF] ++ MiniJSON.qlit "\ud800'"))
  /\ exists e, encodeJSON (MiniJSON.JString [0xFEFF; 0xD800]) = Ok e
               /\ decodeJSON e = Ok (MiniJSON.JString [0xFEFF; 0xD800]).
Proof.
  assert (Hs : JSON_stringify (MiniJSON.JString [0xFEFF; 0xD800])
               = Ok (Some (MiniJSON.qlit "'" ++ [0xFEFF] ++ MiniJSON.qlit "\ud800'")))
    by (vm_compute; reflexivity).
  assert (Hu : code_units (MiniJSON.qlit "'" ++ [0xFEFF] ++ MiniJSON.qlit "\ud800'"))
    by (repeat constructor; apply N.leb_le; reflexivity).
  split; [exact Hs|].
  destruct (decodeJSON_encodeJSON_parse _ _ Hs Hu) as (e & He & Hd).
  exists e. split; [exact He|]. rewrite Hd. vm_compute. reflexivity.
Defined.

(** X16. An error of [decode] comes out of [decodeToString] and of
    [decodeJSON] as it is, and [JSON.parse] is not reached: on a string
    whose length is 1 modulo 4, or with a character [atob] does not know,
    both throw [InvalidCharacterError] with any host. *)
Theorem decode_errors_propagate {value : Type} {H : JSONHost value} (input : jsstring) :
  (length input mod 4 = 1)%nat \/ existsb is_foreign_char input = true ->
  decodeToString input = Throw InvalidCharacterError
  /\ @decodeJSON value H input = Throw InvalidCharacterError.
Proof.
  intros Hbad.
  assert (Hd : decode input = Throw InvalidCharacterError).
  { destruct Hbad as [Hlen|Hchar];
      [now apply decode_throws_on_length | now apply decode_foreign]. }
  unfold decodeJSON, decodeToString. now rewrite Hd.
Qed.

Lemma decode_errors_propagate_witness :
  existsb is_foreign_char (MiniJSON.qlit "{'a':1}") = true
  /\ decodeJSON (H := MiniJSON.host) (MiniJSON.qlit "{'a':1}") = Throw InvalidCharacterError.
Proof.
  assert (H : existsb is_foreign_char (MiniJSON.qlit "{'a':1}") = true)
    by (vm_compute; reflexivity).
  split; [exact H|].
  exact (proj2 (decode_errors_propagate (H := MiniJSON.host) _ (or_intror H))).
Defined.

(** * Further properties of the shim *)

Section ShimToString.

Context {number Buffer : Type} {from : BufferHost number Buffer}
        {text : BufferTextHost Buffer}.

Lemma toString_base64url (this : Buffer) :
  Buffer_toString this (Some (lit "base64url")) = encode (Bytes (buffer_bytes this)).
Proof. reflexivity. Qed.

End ShimToString.

(** X17. [toString("base64url")] on any buffer returns, without a call of the
    original [toString], a string of the URL-safe alphabet that [decode]
    turns back into the bytes of the buffer. *)
Theorem Buffer_toString_base64url {Buffer : Type} {text : BufferTextHost Buffer}
    (this : Buffer) :
  exists s,
    Buffer_toString this (Some (lit "base64url")) = Ok s
    /\ alphabet_pure s /\ decode s = Ok (buffer_bytes this).
Proof.
  eexists. rewrite toString_base64url. split; [apply encode_bytes_value|]. split.
  - apply url_safe_pure, url_safe_map_url_char, sextets_lt_64.
  - apply decode_encoded_bytes.
Qed.

(** X18. The two halves of the shim fit: for any buffer, [Buffer.from] of its
    [toString("base64url")], asked for ["base64url"], is the original
    factory called on the bytes of the buffer alone. *)
Theorem Buffer_from_toString {number Buffer : Type} {from : BufferHost number Buffer}
    {text : BufferTextHost Buffer} (this : Buffer) (length : option number) :
  exists s,
    Buffer_toString this (Some (lit "base64url")) = Ok s
    /\ Buffer_from (VString s) (EString (lit "base64url")) length
       = originalFrom (VUint8Array (buffer_bytes this)) EUndefined None.
Proof.
  eexists. rewrite toString_base64url. split; [apply encode_bytes_value|].
  rewrite from_base64url_string, decode_encoded_bytes. reflexivity.
Qed.

Example Buffer_round_trip_utf8_host :
  @Buffer_toString _ utf8_text (bytes_of_ascii "Hello, World!") (Some (lit "base64url"))
  = Ok (lit "SGVsbG8sIFdvcmxkIQ")
  /\ @Buffer_from _ _ utf8_from (VString (lit "SGVsbG8sIFdvcmxkIQ"))
       (EString (lit "base64url")) None
     = Ok (bytes_of_ascii "Hello, World!")
  /\ @Buffer_toString _ utf8_text (bytes_of_ascii "Hello") (Some (lit "utf8"))
     = Ok (lit "Hello")
  /\ @Buffer_toString _ utf8_text (bytes_of_ascii "Hello") None = Ok (lit "Hello").
Proof. repeat split; vm_compute; reflexivity. Qed.

(** X19. With ["base64url"] and a string [decode] rejects, [Buffer.from]
    throws the error of [decode] and the original factory is not called: so
    for a string whose length is 1 modulo 4 or that has a character [atob]
    does not know, with any host. *)
Theorem Buffer_from_bad_string {number Buffer : Type} {from : BufferHost number Buffer}
    (s : jsstring) (length : option number) :
  (List.length s mod 4 = 1)%nat \/ existsb is_foreign_char s = true ->
  Buffer_from (VString s) (EString (lit "base64url")) length = Throw InvalidCharacterError.
Proof.
  intros Hbad. rewrite from_base64url_string.
  assert (Hd : decode s = Throw InvalidCharacterError).
  { destruct Hbad as [Hlen|Hchar];
      [now apply decode_throws_on_length | now apply decode_foreign]. }
  now rewrite Hd.
Qed.

Lemma Buffer_from_bad_string_witness :
  (List.length (lit "SGVsb") mod 4 = 1)%nat
  /\ @Buffer_from _ _ recording_host (VString (lit "SGVsb")) (EString (lit "base64url")) None
     = Throw InvalidCharacterError.
Proof.
  assert (H : (List.length (lit "SGVsb") mod 4 = 1)%nat) by reflexivity.
  split; [exact H|].
  exact (@Buffer_from_bad_string _ _ recording_host _ None (or_introl H)).
Defined.

(** * Different strings, different encodings *)

Lemma TextEncoder_injective (s1 s2 : jsstring) :
  well_formed s1 = true -> well_formed s2 = true ->
  Text.TextEncoder_encode s1 = Text.TextEncoder_encode s2 -> s1 = s2.
Proof.
  intros W1 W2 E.
  destruct (to_scalars_well_formed s1 W1) as (S1 & U1).
  destruct (to_scalars_well_formed s2 W2) as (S2 & U2).
  apply (f_equal Text.utf8_decode) in E. unfold Text.TextEncoder_encode in E.
  rewrite !utf8_decode_encode in E by assumption.
  rewrite <- U1, <- U2. now rewrite E.
Qed.

(** X20. [encode] is injective on well-formed strings: two different strings
    without lone surrogates never have the same encoding. *)
Theorem encode_string_injective (s1 s2 : jsstring) :
  well_formed s1 = true -> well_formed s2 = true ->
  s1 <> s2 -> encode (Str s1) <> encode (Str s2).
Proof.
  intros W1 W2 Hne Heq. apply Hne. apply TextEncoder_injective; try assumption.
  rewrite !encode_str_bytes, !encode_bytes_value in Heq. injection Heq as Heq.
  pose proof (decode_encoded_bytes (Text.TextEncoder_encode s1)) as D1.
  pose proof (decode_encoded_bytes (Text.TextEncoder_encode s2)) as D2.
  rewrite Heq in D1. rewrite D1 in D2. now injection D2.
Qed.

Lemma encode_string_injective_witness :
  well_formed [0xFEFF; 0x41] = true /\ well_formed [0x41] = true
  /\ [0xFEFF; 0x41] <> [0x41]
  /\ encode (Str [0xFEFF; 0x41]) <> encode (Str [0x41]).
Proof.
  assert (W1 : well_formed [0xFEFF; 0x41] = true) by reflexivity.
  assert (W2 : well_formed [0x41] = true) by reflexivity.
  assert (Hne : [0xFEFF; 0x41] <> [0x41]) by discriminate.
  repeat (split; [assumption|]).
  exact (encode_string_injective _ _ W1 W2 Hne).
Defined.

Example encode_lone_surrogates_collide :
  encode (Str [0xD800]) = encode (Str [0xDC00])
  /\ encode (Str [0xD800]) = encode (Str [0xFFFD]).
Proof. split; vm_compute; reflexivity. Qed.

(** * From a string to a buffer and back *)

(** X21. With a host whose original factory keeps the bytes it is given, a
    buffer made by [Buffer.from] from a string over the URL-safe alphabet,
    asked for ["base64url"], gives back under [toString("base64url")] a
    string of the same length that equals the first up to its last
    character, and equals it when its length is a multiple of 4. *)
Theorem Buffer_toString_from {number Buffer : Type} {from : BufferHost number Buffer}
    {text : BufferTextHost Buffer} (s : jsstring) (length : option number) (buf : Buffer) :
  (forall b buf', originalFrom (VUint8Array b) EUndefined None = Ok buf' ->
                  buffer_bytes buf' = b) ->
  url_safe s -> (List.length s mod 4 <> 1)%nat ->
  Buffer_from (VString s) (EString (lit "base64url")) length = Ok buf ->
  exists e,
    Buffer_toString buf (Some (lit "base64url")) = Ok e
    /\ List.length e = List.length s /\ removelast e = removelast s
    /\ ((List.length s mod 4 = 0)%nat -> e = s).
Proof.
  intros Hcopy Hsafe Hlen Hfrom.
  destruct (url_safe_sextets s Hsafe) as (sx & Hsx & ->).
  rewrite length_map in Hlen.
  destruct (encode_decoded sx Hsx Hlen) as (Hd & He).
  destruct (canonical_sextets_shape sx Hsx) as (C1 & C2 & _).
  rewrite from_base64url_string, Hd in Hfrom. cbn [bind] in Hfrom.
  apply Hcopy in Hfrom.
  exists (map url_char (canonical_sextets sx)).
  rewrite toString_base64url, Hfrom, He, !length_map, !removelast_map, C1, C2.
  repeat split. intros Hfull. now rewrite canonical_sextets_full.
Qed.

Lemma Buffer_toString_from_witness :
  (forall b buf', @originalFrom _ _ utf8_from (VUint8Array b) EUndefined None = Ok buf' ->
                  @buffer_bytes _ utf8_text buf' = b)
  /\ url_safe (lit "SGVsbG8sIFdvcmxkIQ")
  /\ @Buffer_from _ _ utf8_from (VString (lit "SGVsbG8sIFdvcmxkIQ"))
       (EString (lit "base64url")) None
     = Ok (bytes_of_ascii "Hello, World!")
  /\ exists e,
       @Buffer_toString _ utf8_text (bytes_of_ascii "Hello, World!") (Some (lit "base64url"))
       = Ok e
       /\ List.length e = 18%nat.
Proof.
  assert (Hcopy : forall b buf',
            @originalFrom _ _ utf8_from (VUint8Array b) EUndefined None = Ok buf' ->
            @buffer_bytes _ utf8_text buf' = b)
    by (intros b buf' [= <-]; reflexivity).
  assert (Hsafe : url_safe (lit "SGVsbG8sIFdvcmxkIQ")) by (vm_compute; reflexivity).
  assert (Hlen : (List.length (lit "SGVsbG8sIFdvcmxkIQ") mod 4 <> 1)%nat)
    by (vm_compute; discriminate).
  assert (Hfrom : @Buffer_from _ _ utf8_from (VString (lit "SGVsbG8sIFdvcmxkIQ"))
                    (EString (lit "base64url")) None
                  = Ok (bytes_of_ascii "Hello, World!"))
    by (vm_compute; reflexivity).
  split; [exact Hcopy|]. split; [exact Hsafe|]. split; [exact Hfrom|].
  destruct (@Buffer_toString_from _ _ utf8_from utf8_text _ None _ Hcopy Hsafe Hlen Hfrom)
    as (e & He & Hl & _).
  exists e. split; [exact He | exact Hl].
Defined.
